(** * Document indexing and retrieval engine (rag_builder.py)

    A shallow embedding of [RAGBuilder]: sentence-aware chunking, the
    vector index with its positionally aligned corpus store, folder
    ingestion, persistence and status reporting, together with the
    properties of the engine that the design document states.

    Conventions of the embedding.
    - A Python [str] is a list of Unicode code points, so that [len] is
      the length of the list.
    - A Python [int] is a [Z].
    - An operation that may raise returns a [result]; an operation that
      mutates [self] takes the builder and returns the new one.
    - Everything the engine obtains from outside the process (file
      contents, the sentence segmenter, the remote embedding service,
      the clock, the outcome of writes and of [print]) is read from a
      [World]. *)

From Stdlib Require Import ZArith NArith QArith List Bool Lia String Ascii.
From stdpp Require Import base option list gmap.
Import ListNotations.

Local Open Scope Z_scope.

(** ** Python strings *)

Module Py.

Definition char := N.
Definition str := list char.

Definition len {A} (l : list A) : Z := Z.of_nat (length l).

(** Embeds an ASCII literal of the source into [str]. *)
Fixpoint lit (s : string) : str :=
  match s with
  | EmptyString => []
  | String a s' => N_of_ascii a :: lit s'
  end.

Definition SPACE : char := 32%N.

(** [str.isspace] on one code point: the Unicode white-space table that
    [str.strip()] uses. *)
Definition isspace (c : char) : bool :=
  ((9 <=? c) && (c <=? 13) || (28 <=? c) && (c <=? 32)
   || (c =? 133) || (c =? 160) || (c =? 5760)
   || (8192 <=? c) && (c <=? 8202)
   || (c =? 8232) || (c =? 8233) || (c =? 8239) || (c =? 8287)
   || (c =? 12288))%N.

Fixpoint lstrip (s : str) : str :=
  match s with
  | [] => []
  | c :: s' => if isspace c then lstrip s' else s
  end.

Definition rstrip (s : str) : str := rev (lstrip (rev s)).

Definition strip (s : str) : str := rstrip (lstrip s).

(** Truthiness of a sequence: [if s:] *)
Definition truthy {A} (l : list A) : bool :=
  match l with [] => false | _ :: _ => true end.

(** *** [str.lower()]

    The case tables are those of Unicode 14.0, as CPython 3.11 has them.
    A run [(first, last, step, target)] of [LOWER_RUNS] sends the code
    points [first], [first + step], ... up to [last] to [target],
    [target + step], ... *)

Definition LOWER_RUNS : list (N * N * N * N) :=
  [
   (65, 90, 1, 97); (192, 214, 1, 224); (216, 222, 1, 248); (256, 302, 2, 257);
   (306, 310, 2, 307); (313, 327, 2, 314); (330, 374, 2, 331); (376, 376, 1, 255);
   (377, 381, 2, 378); (385, 385, 1, 595); (386, 388, 2, 387); (390, 390, 1, 596);
   (391, 391, 1, 392); (393, 394, 1, 598); (395, 395, 1, 396); (398, 398, 1, 477);
   (399, 399, 1, 601); (400, 400, 1, 603); (401, 401, 1, 402); (403, 403, 1, 608);
   (404, 404, 1, 611); (406, 406, 1, 617); (407, 407, 1, 616); (408, 408, 1, 409);
   (412, 412, 1, 623); (413, 413, 1, 626); (415, 415, 1, 629); (416, 420, 2, 417);
   (422, 422, 1, 640); (423, 423, 1, 424); (425, 425, 1, 643); (428, 428, 1, 429);
   (430, 430, 1, 648); (431, 431, 1, 432); (433, 434, 1, 650); (435, 437, 2, 436);
   (439, 439, 1, 658); (440, 440, 1, 441); (444, 444, 1, 445); (452, 452, 1, 454);
   (453, 453, 1, 454); (455, 455, 1, 457); (456, 456, 1, 457); (458, 458, 1, 460);
   (459, 475, 2, 460); (478, 494, 2, 479); (497, 497, 1, 499); (498, 500, 2, 499);
   (502, 502, 1, 405); (503, 503, 1, 447); (504, 542, 2, 505); (544, 544, 1, 414);
   (546, 562, 2, 547); (570, 570, 1, 11365); (571, 571, 1, 572); (573, 573, 1, 410);
   (574, 574, 1, 11366); (577, 577, 1, 578); (579, 579, 1, 384); (580, 580, 1, 649);
   (581, 581, 1, 652); (582, 590, 2, 583); (880, 882, 2, 881); (886, 886, 1, 887);
   (895, 895, 1, 1011); (902, 902, 1, 940); (904, 906, 1, 941); (908, 908, 1, 972);
   (910, 911, 1, 973); (913, 929, 1, 945); (931, 939, 1, 963); (975, 975, 1, 983);
   (984, 1006, 2, 985); (1012, 1012, 1, 952); (1015, 1015, 1, 1016); (1017, 1017, 1, 1010);
   (1018, 1018, 1, 1019); (1021, 1023, 1, 891); (1024, 1039, 1, 1104); (1040, 1071, 1, 1072);
   (1120, 1152, 2, 1121); (1162, 1214, 2, 1163); (1216, 1216, 1, 1231); (1217, 1229, 2, 1218);
   (1232, 1326, 2, 1233); (1329, 1366, 1, 1377); (4256, 4293, 1, 11520); (4295, 4295, 1, 11559);
   (4301, 4301, 1, 11565); (5024, 5103, 1, 43888); (5104, 5109, 1, 5112); (7312, 7354, 1, 4304);
   (7357, 7359, 1, 4349); (7680, 7828, 2, 7681); (7838, 7838, 1, 223); (7840, 7934, 2, 7841);
   (7944, 7951, 1, 7936); (7960, 7965, 1, 7952); (7976, 7983, 1, 7968); (7992, 7999, 1, 7984);
   (8008, 8013, 1, 8000); (8025, 8031, 2, 8017); (8040, 8047, 1, 8032); (8072, 8079, 1, 8064);
   (8088, 8095, 1, 8080); (8104, 8111, 1, 8096); (8120, 8121, 1, 8112); (8122, 8123, 1, 8048);
   (8124, 8124, 1, 8115); (8136, 8139, 1, 8050); (8140, 8140, 1, 8131); (8152, 8153, 1, 8144);
   (8154, 8155, 1, 8054); (8168, 8169, 1, 8160); (8170, 8171, 1, 8058); (8172, 8172, 1, 8165);
   (8184, 8185, 1, 8056); (8186, 8187, 1, 8060); (8188, 8188, 1, 8179); (8486, 8486, 1, 969);
   (8490, 8490, 1, 107); (8491, 8491, 1, 229); (8498, 8498, 1, 8526); (8544, 8559, 1, 8560);
   (8579, 8579, 1, 8580); (9398, 9423, 1, 9424); (11264, 11311, 1, 11312); (11360, 11360, 1, 11361);
   (11362, 11362, 1, 619); (11363, 11363, 1, 7549); (11364, 11364, 1, 637); (11367, 11371, 2, 11368);
   (11373, 11373, 1, 593); (11374, 11374, 1, 625); (11375, 11375, 1, 592); (11376, 11376, 1, 594);
   (11378, 11378, 1, 11379); (11381, 11381, 1, 11382); (11390, 11391, 1, 575); (11392, 11490, 2, 11393);
   (11499, 11501, 2, 11500); (11506, 11506, 1, 11507); (42560, 42604, 2, 42561); (42624, 42650, 2, 42625);
   (42786, 42798, 2, 42787); (42802, 42862, 2, 42803); (42873, 42875, 2, 42874); (42877, 42877, 1, 7545);
   (42878, 42886, 2, 42879); (42891, 42891, 1, 42892); (42893, 42893, 1, 613); (42896, 42898, 2, 42897);
   (42902, 42920, 2, 42903); (42922, 42922, 1, 614); (42923, 42923, 1, 604); (42924, 42924, 1, 609);
   (42925, 42925, 1, 620); (42926, 42926, 1, 618); (42928, 42928, 1, 670); (42929, 42929, 1, 647);
   (42930, 42930, 1, 669); (42931, 42931, 1, 43859); (42932, 42946, 2, 42933); (42948, 42948, 1, 42900);
   (42949, 42949, 1, 642); (42950, 42950, 1, 7566); (42951, 42953, 2, 42952); (42960, 42960, 1, 42961);
   (42966, 42968, 2, 42967); (42997, 42997, 1, 42998); (65313, 65338, 1, 65345); (66560, 66599, 1, 66600);
   (66736, 66771, 1, 66776); (66928, 66938, 1, 66967); (66940, 66954, 1, 66979); (66956, 66962, 1, 66995);
   (66964, 66965, 1, 67003); (68736, 68786, 1, 68800); (71840, 71871, 1, 71872); (93760, 93791, 1, 93792);
   (125184, 125217, 1, 125218)
  ]%N.

Definition CASE_IGNORABLE : list (N * N) :=
  [
   (39, 39); (46, 46); (58, 58); (94, 94); (96, 96); (168, 168);
   (173, 173); (175, 175); (180, 180); (183, 184); (688, 879); (884, 885);
   (890, 890); (900, 901); (903, 903); (1155, 1161); (1369, 1369); (1375, 1375);
   (1425, 1469); (1471, 1471); (1473, 1474); (1476, 1477); (1479, 1479); (1524, 1524);
   (1536, 1541); (1552, 1562); (1564, 1564); (1600, 1600); (1611, 1631); (1648, 1648);
   (1750, 1757); (1759, 1768); (1770, 1773); (1807, 1807); (1809, 1809); (1840, 1866);
   (1958, 1968); (2027, 2037); (2042, 2042); (2045, 2045); (2070, 2093); (2137, 2139);
   (2184, 2184); (2192, 2193); (2200, 2207); (2249, 2306); (2362, 2362); (2364, 2364);
   (2369, 2376); (2381, 2381); (2385, 2391); (2402, 2403); (2417, 2417); (2433, 2433);
   (2492, 2492); (2497, 2500); (2509, 2509); (2530, 2531); (2558, 2558); (2561, 2562);
   (2620, 2620); (2625, 2626); (2631, 2632); (2635, 2637); (2641, 2641); (2672, 2673);
   (2677, 2677); (2689, 2690); (2748, 2748); (2753, 2757); (2759, 2760); (2765, 2765);
   (2786, 2787); (2810, 2815); (2817, 2817); (2876, 2876); (2879, 2879); (2881, 2884);
   (2893, 2893); (2901, 2902); (2914, 2915); (2946, 2946); (3008, 3008); (3021, 3021);
   (3072, 3072); (3076, 3076); (3132, 3132); (3134, 3136); (3142, 3144); (3146, 3149);
   (3157, 3158); (3170, 3171); (3201, 3201); (3260, 3260); (3263, 3263); (3270, 3270);
   (3276, 3277); (3298, 3299); (3328, 3329); (3387, 3388); (3393, 3396); (3405, 3405);
   (3426, 3427); (3457, 3457); (3530, 3530); (3538, 3540); (3542, 3542); (3633, 3633);
   (3636, 3642); (3654, 3662); (3761, 3761); (3764, 3772); (3782, 3782); (3784, 3789);
   (3864, 3865); (3893, 3893); (3895, 3895); (3897, 3897); (3953, 3966); (3968, 3972);
   (3974, 3975); (3981, 3991); (3993, 4028); (4038, 4038); (4141, 4144); (4146, 4151);
   (4153, 4154); (4157, 4158); (4184, 4185); (4190, 4192); (4209, 4212); (4226, 4226);
   (4229, 4230); (4237, 4237); (4253, 4253); (4348, 4348); (4957, 4959); (5906, 5908);
   (5938, 5939); (5970, 5971); (6002, 6003); (6068, 6069); (6071, 6077); (6086, 6086);
   (6089, 6099); (6103, 6103); (6109, 6109); (6155, 6159); (6211, 6211); (6277, 6278);
   (6313, 6313); (6432, 6434); (6439, 6440); (6450, 6450); (6457, 6459); (6679, 6680);
   (6683, 6683); (6742, 6742); (6744, 6750); (6752, 6752); (6754, 6754); (6757, 6764);
   (6771, 6780); (6783, 6783); (6823, 6823); (6832, 6862); (6912, 6915); (6964, 6964);
   (6966, 6970); (6972, 6972); (6978, 6978); (7019, 7027); (7040, 7041); (7074, 7077);
   (7080, 7081); (7083, 7085); (7142, 7142); (7144, 7145); (7149, 7149); (7151, 7153);
   (7212, 7219); (7222, 7223); (7288, 7293); (7376, 7378); (7380, 7392); (7394, 7400);
   (7405, 7405); (7412, 7412); (7416, 7417); (7468, 7530); (7544, 7544); (7579, 7679);
   (8125, 8125); (8127, 8129); (8141, 8143); (8157, 8159); (8173, 8175); (8189, 8190);
   (8203, 8207); (8216, 8217); (8228, 8228); (8231, 8231); (8234, 8238); (8288, 8292);
   (8294, 8303); (8305, 8305); (8319, 8319); (8336, 8348); (8400, 8432); (11388, 11389);
   (11503, 11505); (11631, 11631); (11647, 11647); (11744, 11775); (11823, 11823); (12293, 12293);
   (12330, 12333); (12337, 12341); (12347, 12347); (12441, 12446); (12540, 12542); (40981, 40981);
   (42232, 42237); (42508, 42508); (42607, 42610); (42612, 42621); (42623, 42623); (42652, 42655);
   (42736, 42737); (42752, 42785); (42864, 42864); (42888, 42890); (42994, 42996); (43000, 43001);
   (43010, 43010); (43014, 43014); (43019, 43019); (43045, 43046); (43052, 43052); (43204, 43205);
   (43232, 43249); (43263, 43263); (43302, 43309); (43335, 43345); (43392, 43394); (43443, 43443);
   (43446, 43449); (43452, 43453); (43471, 43471); (43493, 43494); (43561, 43566); (43569, 43570);
   (43573, 43574); (43587, 43587); (43596, 43596); (43632, 43632); (43644, 43644); (43696, 43696);
   (43698, 43700); (43703, 43704); (43710, 43711); (43713, 43713); (43741, 43741); (43756, 43757);
   (43763, 43764); (43766, 43766); (43867, 43871); (43881, 43883); (44005, 44005); (44008, 44008);
   (44013, 44013); (64286, 64286); (64434, 64450); (65024, 65039); (65043, 65043); (65056, 65071);
   (65106, 65106); (65109, 65109); (65279, 65279); (65287, 65287); (65294, 65294); (65306, 65306);
   (65342, 65342); (65344, 65344); (65392, 65392); (65438, 65439); (65507, 65507); (65529, 65531);
   (66045, 66045); (66272, 66272); (66422, 66426); (67456, 67461); (67463, 67504); (67506, 67514);
   (68097, 68099); (68101, 68102); (68108, 68111); (68152, 68154); (68159, 68159); (68325, 68326);
   (68900, 68903); (69291, 69292); (69446, 69456); (69506, 69509); (69633, 69633); (69688, 69702);
   (69744, 69744); (69747, 69748); (69759, 69761); (69811, 69814); (69817, 69818); (69821, 69821);
   (69826, 69826); (69837, 69837); (69888, 69890); (69927, 69931); (69933, 69940); (70003, 70003);
   (70016, 70017); (70070, 70078); (70089, 70092); (70095, 70095); (70191, 70193); (70196, 70196);
   (70198, 70199); (70206, 70206); (70367, 70367); (70371, 70378); (70400, 70401); (70459, 70460);
   (70464, 70464); (70502, 70508); (70512, 70516); (70712, 70719); (70722, 70724); (70726, 70726);
   (70750, 70750); (70835, 70840); (70842, 70842); (70847, 70848); (70850, 70851); (71090, 71093);
   (71100, 71101); (71103, 71104); (71132, 71133); (71219, 71226); (71229, 71229); (71231, 71232);
   (71339, 71339); (71341, 71341); (71344, 71349); (71351, 71351); (71453, 71455); (71458, 71461);
   (71463, 71467); (71727, 71735); (71737, 71738); (71995, 71996); (71998, 71998); (72003, 72003);
   (72148, 72151); (72154, 72155); (72160, 72160); (72193, 72202); (72243, 72248); (72251, 72254);
   (72263, 72263); (72273, 72278); (72281, 72283); (72330, 72342); (72344, 72345); (72752, 72758);
   (72760, 72765); (72767, 72767); (72850, 72871); (72874, 72880); (72882, 72883); (72885, 72886);
   (73009, 73014); (73018, 73018); (73020, 73021); (73023, 73029); (73031, 73031); (73104, 73105);
   (73109, 73109); (73111, 73111); (73459, 73460); (78896, 78904); (92912, 92916); (92976, 92982);
   (92992, 92995); (94031, 94031); (94095, 94111); (94176, 94177); (94179, 94180); (110576, 110579);
   (110581, 110587); (110589, 110590); (113821, 113822); (113824, 113827); (118528, 118573); (118576, 118598);
   (119143, 119145); (119155, 119170); (119173, 119179); (119210, 119213); (119362, 119364); (121344, 121398);
   (121403, 121452); (121461, 121461); (121476, 121476); (121499, 121503); (121505, 121519); (122880, 122886);
   (122888, 122904); (122907, 122913); (122915, 122916); (122918, 122922); (123184, 123197); (123566, 123566);
   (123628, 123631); (125136, 125142); (125252, 125259); (127995, 127999); (917505, 917505); (917536, 917631);
   (917760, 917999)
  ]%N.

Definition CASED : list (N * N) :=
  [
   (65, 90); (97, 122); (170, 170); (181, 181); (186, 186); (192, 214);
   (216, 246); (248, 442); (444, 447); (452, 659); (661, 687); (880, 883);
   (886, 887); (891, 893); (895, 895); (902, 902); (904, 906); (908, 908);
   (910, 929); (931, 1013); (1015, 1153); (1162, 1327); (1329, 1366); (1376, 1416);
   (4256, 4293); (4295, 4295); (4301, 4301); (4304, 4346); (4349, 4351); (5024, 5109);
   (5112, 5117); (7296, 7304); (7312, 7354); (7357, 7359); (7424, 7467); (7531, 7543);
   (7545, 7578); (7680, 7957); (7960, 7965); (7968, 8005); (8008, 8013); (8016, 8023);
   (8025, 8025); (8027, 8027); (8029, 8029); (8031, 8061); (8064, 8116); (8118, 8124);
   (8126, 8126); (8130, 8132); (8134, 8140); (8144, 8147); (8150, 8155); (8160, 8172);
   (8178, 8180); (8182, 8188); (8450, 8450); (8455, 8455); (8458, 8467); (8469, 8469);
   (8473, 8477); (8484, 8484); (8486, 8486); (8488, 8488); (8490, 8493); (8495, 8500);
   (8505, 8505); (8508, 8511); (8517, 8521); (8526, 8526); (8544, 8575); (8579, 8580);
   (9398, 9449); (11264, 11387); (11390, 11492); (11499, 11502); (11506, 11507); (11520, 11557);
   (11559, 11559); (11565, 11565); (42560, 42605); (42624, 42651); (42786, 42863); (42865, 42887);
   (42891, 42894); (42896, 42954); (42960, 42961); (42963, 42963); (42965, 42969); (42997, 42998);
   (43002, 43002); (43824, 43866); (43872, 43880); (43888, 43967); (64256, 64262); (64275, 64279);
   (65313, 65338); (65345, 65370); (66560, 66639); (66736, 66771); (66776, 66811); (66928, 66938);
   (66940, 66954); (66956, 66962); (66964, 66965); (66967, 66977); (66979, 66993); (66995, 67001);
   (67003, 67004); (68736, 68786); (68800, 68850); (71840, 71903); (93760, 93823); (119808, 119892);
   (119894, 119964); (119966, 119967); (119970, 119970); (119973, 119974); (119977, 119980); (119982, 119993);
   (119995, 119995); (119997, 120003); (120005, 120069); (120071, 120074); (120077, 120084); (120086, 120092);
   (120094, 120121); (120123, 120126); (120128, 120132); (120134, 120134); (120138, 120144); (120146, 120485);
   (120488, 120512); (120514, 120538); (120540, 120570); (120572, 120596); (120598, 120628); (120630, 120654);
   (120656, 120686); (120688, 120712); (120714, 120744); (120746, 120770); (120772, 120779); (122624, 122633);
   (122635, 122654); (125184, 125251); (127280, 127305); (127312, 127337); (127344, 127369)
  ]%N.

Definition in_ranges (c : char) (table : list (N * N)) : bool :=
  existsb (fun r => (fst r <=? c) && (c <=? snd r))%N table.

(** Case-ignorable characters, and cased characters that are not
    case-ignorable (the only ones the test for being cased is made on). *)
Definition case_ignorable (c : char) : bool := in_ranges c CASE_IGNORABLE.
Definition cased (c : char) : bool := in_ranges c CASED.

Definition in_run (c : char) (r : N * N * N * N) : bool :=
  let '(first, last, step, _) := r in
  ((first <=? c) && (c <=? last) && ((c - first) mod step =? 0))%N.

(** The lower-case mapping of one character, out of context. *)
Definition to_lower (c : char) : char :=
  match List.find (in_run c) LOWER_RUNS with
  | Some (first, _, _, target) => (target + (c - first))%N
  | None => c
  end.

(** The full mapping: only U+0130 becomes two characters. *)
Definition to_lower_full (c : char) : list char :=
  if (c =? 304)%N then [105; 775]%N else [to_lower c].

(** The first character of [s] that is not case-ignorable. *)
Fixpoint skip_ignorable (s : str) : option char :=
  match s with
  | [] => None
  | c :: s' => if case_ignorable c then skip_ignorable s' else Some c
  end.

(** A capital sigma is final when a cased letter comes before it and none
    comes after it, case-ignorable characters apart. [rev_before] is the
    text before it, nearest character first. *)
Definition final_sigma (rev_before after : str) : bool :=
  match skip_ignorable rev_before with
  | Some c =>
      cased c &&
      match skip_ignorable after with
      | Some c' => negb (cased c')
      | None => true
      end
  | None => false
  end.

Definition CAPITAL_SIGMA : char := 931%N.
Definition SMALL_SIGMA : char := 963%N.
Definition SMALL_FINAL_SIGMA : char := 962%N.

Definition lower_at (rev_before : str) (c : char) (after : str) : list char :=
  if (c =? CAPITAL_SIGMA)%N
  then [if final_sigma rev_before after then SMALL_FINAL_SIGMA else SMALL_SIGMA]
  else to_lower_full c.

Fixpoint lower_from (rev_before s : str) : str :=
  match s with
  | [] => []
  | c :: rest => lower_at rev_before c rest ++ lower_from (c :: rev_before) rest
  end.

Definition lower (s : str) : str := lower_from [] s.

Fixpoint startswith (s p : str) : bool :=
  match p, s with
  | [], _ => true
  | _ :: _, [] => false
  | b :: p', a :: s' => (a =? b)%N && startswith s' p'
  end.

Definition endswith (s suffix : str) : bool := startswith (rev s) (rev suffix).

End Py.

Import Py.

(** ** Chunker: [RAGBuilder.split_text] *)

Module Chunker.

(** [[sent.text.strip() for sent in doc.sents if sent.text.strip()]] and
    [[s.strip() for s in sentences if s.strip()]] *)
Definition stripped_nonempty (raw : list str) : list str :=
  List.filter truthy (map strip raw).

(** One iteration of the packing loop over the pair
    [(chunks, current_chunk)]. *)
Definition pack_step (chunk_size : Z) (acc : list str * str) (sentence : str)
  : list str * str :=
  let '(chunks, current_chunk) := acc in
  if len current_chunk + len sentence <=? chunk_size
  then (chunks, current_chunk ++ sentence ++ [SPACE])
  else ((if truthy current_chunk then chunks ++ [strip current_chunk] else chunks),
        sentence ++ [SPACE]).

Definition pack (chunk_size : Z) (sentences : list str) (acc : list str * str)
  : list str * str :=
  fold_left (pack_step chunk_size) sentences acc.

(** [if current_chunk: chunks.append(current_chunk.strip())] *)
Definition flush (acc : list str * str) : list str * str :=
  let '(chunks, current_chunk) := acc in
  ((if truthy current_chunk then chunks ++ [strip current_chunk] else chunks),
   current_chunk).

(** The character class of the fallback pattern [(?<=[。！？!?])]. *)
Definition is_terminal (c : char) : bool :=
  ((c =? 12290) || (c =? 65281) || (c =? 65311) || (c =? 33) || (c =? 63))%N.

(** [re.split(r'(?<=[。！？!?])', text)]: the text is cut after every
    sentence-final mark; the piece after the last cut is kept even when it
    is empty. [cur] is the piece being read. *)
Fixpoint re_split_after (text cur : str) : list str :=
  match text with
  | [] => [cur]
  | c :: rest =>
      if is_terminal c then (cur ++ [c]) :: re_split_after rest []
      else re_split_after rest (cur ++ [c])
  end.

Definition re_split (text : str) : list str := re_split_after text [].

Section WithSegmenter.

(** [nlp text] is the list of [sent.text] for [sent] in
    [self.nlp(text).sents]. *)
Variable nlp : str -> list str.

Definition split_text (text : str) (chunk_size : Z) : list str :=
  let sentences := stripped_nonempty (nlp text) in
  let '(chunks, current_chunk) :=
    flush (pack chunk_size sentences ([], [])) in
  if truthy chunks then chunks
  else
    let sentences := stripped_nonempty (re_split text) in
    fst (flush (pack chunk_size sentences (chunks, current_chunk))).

(** The sentences that end up in the chunks: the segmenter's, or the
    fallback's when the segmenter found none. *)
Definition packed_sentences (text : str) : list str :=
  match stripped_nonempty (nlp text) with
  | [] => stripped_nonempty (re_split text)
  | s :: ss => s :: ss
  end.

End WithSegmenter.

(** The default of the [chunk_size] parameter. *)
Definition DEFAULT_CHUNK_SIZE : Z := 500.

End Chunker.


(** ** Exceptions and results *)

Module Exn.

(** The exceptions the engine raises or lets through. *)
Inductive exn : Type :=
  | UnsupportedFormat      (* ValueError("不支持的文件格式: ...") *)
  | EmptyDocuments         (* ValueError("文档列表不能为空") *)
  | ExtractionError        (* Exception("读取...失败: ...") *)
  | EmbeddingServiceError  (* Exception("获取嵌入向量失败: ...") *)
  | IndexError
  | KeyError
  | ValueError
  | AssertionError
  | OSError
  | StdoutError.           (* what a failing [print] raises *)

Inductive result (A : Type) : Type :=
  | Ok (a : A)
  | Raise (e : exn).
Arguments Ok {A} a.
Arguments Raise {A} e.

#[export] Instance result_ret : MRet result := fun A a => Ok a.
#[export] Instance result_bind : MBind result := fun A B f m =>
  match m with
  | Ok a => f a
  | Raise e => Raise e
  end.

Definition is_ok {A} (r : result A) : bool :=
  match r with Ok _ => true | Raise _ => false end.

End Exn.

Import Exn.

(** [l[i]] with Python's negative indices. *)
Definition py_getitem {A} (l : list A) (i : Z) : result A :=
  let j := if i <? 0 then len l + i else i in
  if (0 <=? j) && (j <? len l)
  then match l !! Z.to_nat j with
       | Some x => Ok x
       | None => Raise IndexError
       end
  else Raise IndexError.

(** ** numpy arrays of the embedding client *)

Module Np.

Definition vector := list Q.

(** What an [item['embedding']] of the response can be: a number, a list,
    or a value that cannot be made a float. *)
#[local] Set Warnings "-register-all".
Inductive nested : Type :=
  | Num (q : Q)
  | Junk
  | Arr (items : list nested).

(** The arrays [np.array(embeddings)] can be: the empty one-dimensional
    array of shape [(0,)], a matrix of shape [(length rows, cols)], or an
    array of another shape (one dimension and not empty, or three
    dimensions or more), of which only the shape matters. *)
Inductive ndarray : Type :=
  | Array1Empty
  | Array2 (cols : nat) (rows : list vector)
  | ArrayN (shape : list nat).

Definition same_shape (o : option (list nat)) (s : list nat) : bool :=
  match o with
  | Some s' => bool_decide (s' = s)
  | None => false
  end.

(** The shape of a regular nesting of numbers; none when the lengths
    differ somewhere or a value is not a number. *)
Fixpoint shape_of (x : nested) : option (list nat) :=
  match x with
  | Num _ => Some []
  | Junk => None
  | Arr items =>
      match items with
      | [] => Some [0%nat]
      | y :: ys =>
          match shape_of y with
          | Some s =>
              if forallb (fun z => same_shape (shape_of z) s) ys
              then Some (S (length ys) :: s)
              else None
          | None => None
          end
      end
  end.

(** The numbers of a list of numbers. *)
Definition to_vector (x : nested) : vector :=
  match x with
  | Arr items =>
      flat_map (fun i => match i with Num q => [q] | _ => [] end) items
  | _ => []
  end.

(** [np.array(embeddings).astype('float32')]; what is not a regular
    nesting of numbers is refused. *)
Definition array (embeddings : list nested) : result ndarray :=
  match shape_of (Arr embeddings) with
  | None => Raise ValueError
  | Some [O] => Ok Array1Empty
  | Some [_; cols] => Ok (Array2 cols (map to_vector embeddings))
  | Some shape => Ok (ArrayN shape)
  end.

(** [a.shape[1]] *)
Definition shape1 (a : ndarray) : result nat :=
  match a with
  | Array1Empty => Raise IndexError
  | Array2 cols _ => Ok cols
  | ArrayN (_ :: cols :: _) => Ok cols
  | ArrayN _ => Raise IndexError
  end.

End Np.

(** ** The flat L2 index of the FAISS library

    The library is not part of the repository; this is its documented
    behaviour: vectors are kept in insertion order, [add] refuses a matrix
    of another width and an array that is not a matrix, and [search]
    returns for each query row exactly [k] labels in ascending distance,
    vectors at the same distance in ascending position, the labels for
    which no vector is left being [-1] with the largest float as distance.
    Coordinates are exact rationals here; rounding to 32-bit floats is not
    modelled. *)

Module Faiss.

Import Np.

Record IndexFlatL2 : Type := mkIndex {
  d : nat;
  xb : list vector
}.

Definition ntotal (ix : IndexFlatL2) : nat := length (xb ix).

Definition new (dimension : nat) : IndexFlatL2 := mkIndex dimension [].

Definition add (ix : IndexFlatL2) (x : ndarray) : result IndexFlatL2 :=
  match x with
  | Array1Empty | ArrayN _ => Raise ValueError
  | Array2 cols rows =>
      if Nat.eqb cols (d ix) then Ok (mkIndex (d ix) (xb ix ++ rows))
      else Raise AssertionError
  end.

Fixpoint l2sqr (x y : vector) : Q :=
  match x, y with
  | a :: x', b :: y' => ((a - b) * (a - b) + l2sqr x' y')%Q
  | _, _ => 0%Q
  end.

Definition FLT_MAX : Q := inject_Z 340282346638528859811704183484516925440.

Fixpoint insert_by_distance (p : Q * Z) (l : list (Q * Z)) : list (Q * Z) :=
  match l with
  | [] => [p]
  | q :: l' =>
      if Qle_bool (fst p) (fst q) then p :: q :: l'
      else q :: insert_by_distance p l'
  end.

Definition sort_by_distance (l : list (Q * Z)) : list (Q * Z) :=
  fold_right insert_by_distance [] l.

(** Distances from [q] to the stored vectors, each with its position. *)
Definition candidates (ix : IndexFlatL2) (q : vector) : list (Q * Z) :=
  imap (fun i v => (l2sqr q v, Z.of_nat i)) (xb ix).

(** The [k] results for one query row. *)
Definition knn (ix : IndexFlatL2) (k : nat) (q : vector) : list (Q * Z) :=
  let found := take k (sort_by_distance (candidates ix q)) in
  found ++ replicate (k - length found) (FLT_MAX, -1).

(** [index.search(x, k)]: one row of (distance, label) pairs per query row. *)
Definition search (ix : IndexFlatL2) (x : ndarray) (k : Z)
  : result (list (list (Q * Z))) :=
  match x with
  | Array1Empty | ArrayN _ => Raise ValueError
  | Array2 cols rows =>
      if negb (Nat.eqb cols (d ix)) then Raise AssertionError
      else if k <=? 0 then Raise AssertionError
      else Ok (map (knn ix (Z.to_nat k)) rows)
  end.

End Faiss.

(** ** The builder: corpus store, vector index and the operations *)

Module Rag.

Import Np.

(** A metadata dict. The keys the engine writes hold strings, and so do
    the values modelled here. *)
Abbreviation Meta := (gmap str str).

(** The mutable attributes of a [RAGBuilder] instance that the operations
    read or assign ([api_key], [use_proxy] and [proxy_url] only configure
    the HTTP session). *)
Record RAGBuilder : Type := mkBuilder {
  embedding_model : str;
  index : option Faiss.IndexFlatL2;
  documents : list str;
  document_metadata : list Meta
}.

(** [RAGBuilder.__init__] *)
Definition init (model : str) : RAGBuilder := mkBuilder model None [] [].

Definition DEFAULT_EMBEDDING_MODEL : str := lit "Qwen/Qwen3-Embedding-8B".

Definition set_index (ix : option Faiss.IndexFlatL2) (self : RAGBuilder) : RAGBuilder :=
  mkBuilder (embedding_model self) ix (documents self) (document_metadata self).

Definition set_documents (docs : list str) (self : RAGBuilder) : RAGBuilder :=
  mkBuilder (embedding_model self) (index self) docs (document_metadata self).

Definition set_document_metadata (ms : list Meta) (self : RAGBuilder) : RAGBuilder :=
  mkBuilder (embedding_model self) (index self) (documents self) ms.

(** Number of vectors held by the index attribute; none when it is [None]. *)
Definition vector_count (self : RAGBuilder) : nat :=
  match index self with
  | None => 0%nat
  | Some ix => Faiss.ntotal ix
  end.

(** *** Methods as state transformers that may raise

    A method maps the builder to its outcome and the builder it leaves
    behind; after [Raise] the second component is the builder at the
    moment the exception left the method. *)

Definition M (A : Type) : Type := RAGBuilder -> result A * RAGBuilder.

Definition ret {A} (a : A) : M A := fun self => (Ok a, self).

Definition bind {A B} (m : M A) (f : A -> M B) : M B := fun self =>
  match m self with
  | (Ok a, self') => f a self'
  | (Raise e, self') => (Raise e, self')
  end.

Definition lift {A} (r : result A) : M A := fun self => (r, self).

Definition get : M RAGBuilder := fun self => (Ok self, self).

Definition modify (f : RAGBuilder -> RAGBuilder) : M unit := fun self => (Ok tt, f self).

Declare Scope rag_scope.
Delimit Scope rag_scope with rag.
Notation "x <~ m ;; k" := (bind m (fun x => k))
  (at level 100, m at next level, right associativity) : rag_scope.
Notation "m ;;; k" := (bind m (fun _ => k))
  (at level 100, right associativity) : rag_scope.
Local Open Scope rag_scope.

(** *** The outside world of one ingestion *)

Record World : Type := mkWorld {
  (** [extract_text_from_pdf], [_docx], [_txt]: the text of the file, or
      [None] when reading or parsing it raises. *)
  pdf_text : str -> option str;
  docx_text : str -> option str;
  txt_text : str -> option str;
  (** The sentence texts the spaCy pipeline finds. *)
  nlp : str -> list str;
  (** The values under [embedding] of the items of the response of the
      remote service, in order, or [None] when the request fails, is
      refused, or the response lacks one of the keys. *)
  embedding_service : list str -> option (list nested);
  (** [datetime.now().isoformat()], by number of the reading. *)
  now : nat -> str
}.

Definition reading (o : option str) : result str :=
  match o with
  | Some text => Ok text
  | None => Raise ExtractionError
  end.

Definition extract_text_from_file (w : World) (file_path : str) : result str :=
  if endswith (lower file_path) (lit ".pdf") then reading (pdf_text w file_path)
  else if endswith (lower file_path) (lit ".docx") then reading (docx_text w file_path)
  else if endswith (lower file_path) (lit ".txt") then reading (txt_text w file_path)
  else Raise UnsupportedFormat.

(** Any exception inside [get_embeddings], also the one of [np.array], is
    re-raised as the embedding failure. *)
Definition get_embeddings (w : World) (texts : list str) : result ndarray :=
  match embedding_service w texts with
  | None => Raise EmbeddingServiceError
  | Some embeddings =>
      match Np.array embeddings with
      | Ok a => Ok a
      | Raise _ => Raise EmbeddingServiceError
      end
  end.

(** [self.index.add(embeddings)] *)
Definition index_add (embeddings : ndarray) : M unit := fun self =>
  match index self with
  | None => (Raise ValueError, self)
  | Some ix =>
      match Faiss.add ix embeddings with
      | Ok ix' => (Ok tt, set_index (Some ix') self)
      | Raise e => (Raise e, self)
      end
  end.

Definition build_index (w : World) (documents : list str)
    (metadata : option (list Meta)) : M unit :=
  if negb (truthy documents) then lift (Raise EmptyDocuments)
  else
    embeddings <~ lift (get_embeddings w documents) ;;
    dimension <~ lift (shape1 embeddings) ;;
    modify (set_index (Some (Faiss.new dimension))) ;;;
    index_add embeddings ;;;
    modify (set_documents documents) ;;;
    modify (set_document_metadata
              (match metadata with
               | Some (m :: ms) => m :: ms
               | _ => map (fun _ => ∅) documents
               end)).

(** [os.path.basename] *)
Fixpoint basename_from (path cur : str) : str :=
  match path with
  | [] => cur
  | c :: rest => if (c =? 47)%N then basename_from rest [] else basename_from rest (cur ++ [c])
  end.

Definition basename (path : str) : str := basename_from path [].

(** The dict literal of [add_document]: the caller's entries come last and
    win. *)
Definition chunk_metadata (file_path added_date : str) (metadata : option Meta) : Meta :=
  default ∅ metadata ∪
  <[lit "file_path" := file_path]>
    (<[lit "file_name" := basename file_path]>
       (<[lit "added_date" := added_date]> ∅)).

(** The loop [for chunk in chunks] of [add_document]; [i] counts the
    readings of the clock. *)
Fixpoint append_chunks (w : World) (file_path : str) (metadata : option Meta)
    (i : nat) (chunks : list str) (self : RAGBuilder) : RAGBuilder :=
  match chunks with
  | [] => self
  | chunk :: rest =>
      let self1 := set_documents (documents self ++ [chunk]) self in
      let self2 :=
        set_document_metadata
          (document_metadata self1 ++ [chunk_metadata file_path (now w i) metadata])
          self1 in
      append_chunks w file_path metadata (S i) rest self2
  end.

Record AddResult : Type := mkAddResult {
  file_path : str;
  chunk_count : Z;
  total_chunks : Z
}.

Definition add_document (w : World) (file_path : str) (metadata : option Meta)
  : M AddResult :=
  text <~ lift (extract_text_from_file w file_path) ;;
  let chunks := Chunker.split_text (nlp w) text Chunker.DEFAULT_CHUNK_SIZE in
  embeddings <~ lift (get_embeddings w chunks) ;;
  self <~ get ;;
  (match index self with
   | None =>
       dimension <~ lift (shape1 embeddings) ;;
       modify (set_index (Some (Faiss.new dimension)))
   | Some _ => ret tt
   end) ;;;
  index_add embeddings ;;;
  modify (append_chunks w file_path metadata 0 chunks) ;;;
  self <~ get ;;
  ret (mkAddResult file_path (len chunks) (len (documents self))).

(** *** Folder ingestion *)

(** A directory: the names of its files and its sub-directories. *)
#[local] Set Warnings "-register-all".
Inductive tree : Type :=
  | Dir (files : list str) (subdirs : list (str * tree)).

(** [os.path.join] of two components (POSIX). *)
Definition os_path_join (a b : str) : str :=
  if startswith b (lit "/") then b
  else if negb (truthy a) || endswith a (lit "/") then a ++ b
  else a ++ lit "/" ++ b.

(** [os.walk(top)], top-down: the pairs [(root, files)] in the order they
    are yielded. *)
Fixpoint walk (top : str) (t : tree) : list (str * list str) :=
  match t with
  | Dir files subdirs =>
      (top, files) ::
      flat_map (fun sub => walk (os_path_join top (fst sub)) (snd sub)) subdirs
  end.

(** What [add_documents_from_folder] prints. *)
Inductive message : Type :=
  | Added (file : str)                  (* 已添加文档: file *)
  | Failed (file : str) (error : exn).  (* 添加文档失败 file: error *)

Record FolderWorld : Type := mkFolderWorld {
  (** The directory at a path; [None] when there is none, in which case
      [os.walk] yields nothing. *)
  listing : str -> option tree;
  (** The world in which the file at a path is ingested. *)
  world_at : str -> World;
  (** Whether the standard output takes a message while the file at a path
      is handled; [print] raises when it does not (the stream is closed, or
      its encoding lacks a character of the message). *)
  stdout : str -> message -> bool
}.

Definition print (fw : FolderWorld) (file_path : str) (m : message) : result unit :=
  if stdout fw file_path m then Ok tt else Raise StdoutError.

Definition os_walk (fw : FolderWorld) (folder_path : str) : list (str * list str) :=
  match listing fw folder_path with
  | Some t => walk folder_path t
  | None => []
  end.

Definition DEFAULT_FILE_EXTENSIONS : list str := [lit ".pdf"; lit ".docx"; lit ".txt"].

(** [any(file.lower().endswith(ext) for ext in file_extensions)] *)
Definition extension_matches (file_extensions : list str) (file : str) : bool :=
  existsb (fun ext => endswith (lower file) ext) file_extensions.

(** One record of the report of [add_documents_from_folder]. *)
Inductive FileReport : Type :=
  | Success (result : AddResult)     (* status "success" *)
  | Error (file_path : str) (error : exn).  (* status "error" *)

(** The body of the [try]: its outcome, with the report and the builder
    at the moment it ends or raises. The success record is appended before
    the message is printed. *)
Definition try_add_document (fw : FolderWorld) (file file_path : str)
    (results : list FileReport) (self : RAGBuilder)
  : result unit * list FileReport * RAGBuilder :=
  match add_document (world_at fw file_path) file_path None self with
  | (Ok result, self') =>
      (print fw file_path (Added file), results ++ [Success result], self')
  | (Raise e, self') => (Raise e, results, self')
  end.

(** The [try] / [except Exception] for one file that passed the filter.
    The handler appends the error record and prints; what its [print]
    raises leaves the method. *)
Definition ingest_file (fw : FolderWorld) (root file : str)
    (results : list FileReport) : M (list FileReport) := fun self =>
  let file_path := os_path_join root file in
  match try_add_document fw file file_path results self with
  | (Ok _, results', self') => (Ok results', self')
  | (Raise e, results', self') =>
      match print fw file_path (Failed file e) with
      | Ok _ => (Ok (results' ++ [Error file_path e]), self')
      | Raise e' => (Raise e', self')
      end
  end.

(** The loop [for file in files] under one [root]. *)
Fixpoint ingest_files (fw : FolderWorld) (file_extensions : list str) (root : str)
    (files : list str) (results : list FileReport) : M (list FileReport) :=
  match files with
  | [] => ret results
  | file :: rest =>
      if extension_matches file_extensions file then
        results' <~ ingest_file fw root file results ;;
        ingest_files fw file_extensions root rest results'
      else ingest_files fw file_extensions root rest results
  end.

(** The loop [for root, _, files in os.walk(folder_path)]. *)
Fixpoint ingest_walk (fw : FolderWorld) (file_extensions : list str)
    (dirs : list (str * list str)) (results : list FileReport) : M (list FileReport) :=
  match dirs with
  | [] => ret results
  | (root, files) :: rest =>
      results' <~ ingest_files fw file_extensions root files results ;;
      ingest_walk fw file_extensions rest results'
  end.

Definition add_documents_from_folder (fw : FolderWorld) (folder_path : str)
    (file_extensions : option (list str)) : M (list FileReport) :=
  let file_extensions := default DEFAULT_FILE_EXTENSIONS file_extensions in
  ingest_walk fw file_extensions (os_walk fw folder_path) [].

(** *** Search *)

Record Hit : Type := mkHit {
  document : str;
  metadata : Meta;
  score : Q
}.

(** The loop [for i, idx in enumerate(indices[0])] with [distances[0][i]]
    paired to [idx]. *)
Fixpoint collect_hits (self : RAGBuilder) (row : list (Q * Z)) (results : list Hit)
  : result (list Hit) :=
  match row with
  | [] => Ok results
  | (distance, idx) :: rest =>
      if idx <? len (documents self) then
        doc ← py_getitem (documents self) idx;
        meta ← py_getitem (document_metadata self) idx;
        collect_hits self rest (results ++ [mkHit doc meta distance])
      else collect_hits self rest results
  end.

Definition DEFAULT_K : Z := 5.

Definition search (w : World) (self : RAGBuilder) (query : str) (k : Z)
  : result (list Hit) :=
  match index self with
  | None => Ok []
  | Some ix =>
      if len (documents self) =? 0 then Ok []
      else
        query_embedding ← get_embeddings w [query];
        found ← Faiss.search ix query_embedding k;
        row ← py_getitem found 0;
        collect_hits self row []
  end.

(** *** Persistence *)

(** The JSON object of the sidecar file; a key may be missing. *)
Record Sidecar : Type := mkSidecar {
  j_documents : option (list str);
  j_metadata : option (list Meta);
  j_saved_date : option str;
  j_embedding_model : option str
}.

(** What a path holds, as far as the readers can tell: a blob that
    [faiss.read_index] decodes, a JSON object, a directory, or anything
    else. *)
Inductive file : Type :=
  | FaissBlob (ix : Faiss.IndexFlatL2)
  | JsonFile (data : Sidecar)
  | Directory
  | Garbage.

Abbreviation FileSystem := (gmap str file).

Inductive write_outcome : Type :=
  | Written           (* the file now holds the content *)
  | FailedUntouched   (* raised before the file was opened for writing *)
  | FailedPartial.    (* raised after the file was truncated *)

Definition write_file (o : write_outcome) (path : str) (content : file)
    (fs : FileSystem) : FileSystem :=
  match o with
  | Written => <[path := content]> fs
  | FailedUntouched => fs
  | FailedPartial => <[path := Garbage]> fs
  end.

Definition written (o : write_outcome) : bool :=
  match o with Written => true | _ => false end.

(** What happens outside the process during one [save_index]. *)
Record SaveWorld : Type := mkSaveWorld {
  (** The directories [os.makedirs] makes on its way (the missing
      ancestors of the file, outermost first), and whether it returns;
      those made before it raises stay. *)
  makedirs_made : list str;
  makedirs_ok : bool;
  index_write : write_outcome;
  json_write : write_outcome;
  saved_date : str
}.

(** The file system after [os.makedirs(..., exist_ok=True)]: a directory
    at each of the paths that held nothing. *)
Definition mkdir (path : str) (fs : FileSystem) : FileSystem :=
  match fs !! path with
  | None => <[path := Directory]> fs
  | Some _ => fs
  end.

Definition makedirs (made : list str) (fs : FileSystem) : FileSystem :=
  foldr mkdir fs made.

Definition index_path (file_path : str) : str := file_path ++ lit ".index".
Definition json_path (file_path : str) : str := file_path ++ lit ".json".

(** Returns the boolean, the file system and the builder afterwards. *)
Definition save_index (sw : SaveWorld) (file_path : str) (fs : FileSystem)
    (self : RAGBuilder) : bool * FileSystem * RAGBuilder :=
  match index self with
  | None => (false, fs, self)
  | Some ix =>
      let fs0 := makedirs (makedirs_made sw) fs in
      if negb (makedirs_ok sw) then (false, fs0, self)
      else
        let fs1 := write_file (index_write sw) (index_path file_path) (FaissBlob ix) fs0 in
        if negb (written (index_write sw)) then (false, fs1, self)
        else
          let data :=
            mkSidecar (Some (documents self)) (Some (document_metadata self))
                      (Some (saved_date sw)) (Some (embedding_model self)) in
          let fs2 := write_file (json_write sw) (json_path file_path) (JsonFile data) fs1 in
          (written (json_write sw), fs2, self)
  end.

(** [faiss.read_index] *)
Definition read_index (fs : FileSystem) (path : str) : result Faiss.IndexFlatL2 :=
  match fs !! path with
  | Some (FaissBlob ix) => Ok ix
  | _ => Raise OSError
  end.

(** [open] followed by [json.load] *)
Definition read_json (fs : FileSystem) (path : str) : result Sidecar :=
  match fs !! path with
  | Some (JsonFile data) => Ok data
  | Some Directory | None => Raise OSError
  | Some _ => Raise ValueError
  end.

(** [data[key]] *)
Definition data_getitem {A} (field : option A) : result A :=
  match field with
  | Some v => Ok v
  | None => Raise KeyError
  end.

(** The body of the [try] of [load_index]. *)
Definition load_index_body (fs : FileSystem) (file_path : str) : M unit :=
  ix <~ lift (read_index fs (index_path file_path)) ;;
  modify (set_index (Some ix)) ;;;
  data <~ lift (read_json fs (json_path file_path)) ;;
  docs <~ lift (data_getitem (j_documents data)) ;;
  modify (set_documents docs) ;;;
  ms <~ lift (data_getitem (j_metadata data)) ;;
  modify (set_document_metadata ms).

Definition load_index (fs : FileSystem) (file_path : str) (self : RAGBuilder)
  : bool * RAGBuilder :=
  match load_index_body fs file_path self with
  | (Ok _, self') => (true, self')
  | (Raise _, self') => (false, self')
  end.

(** *** Status and clearing *)

Definition STATUS_UNINITIALIZED : str := [26410; 21021; 22987; 21270]%N.  (* 未初始化 *)
Definition STATUS_INITIALIZED : str := [24050; 21021; 22987; 21270]%N.    (* 已初始化 *)
Definition UNKNOWN_FILE : str := [26410; 30693]%N.                        (* 未知 *)

Record IndexStatus : Type := mkStatus {
  status : str;
  document_count : Z;
  file_count : Z;
  dimension : Z;
  file_stats : option (gmap str Z)
}.

(** The loop [for meta in self.document_metadata] of [get_index_status]. *)
Definition count_file (file_stats : gmap str Z) (meta : Meta) : gmap str Z :=
  let file_path := default UNKNOWN_FILE (meta !! lit "file_path") in
  let file_stats :=
    match file_stats !! file_path with
    | None => <[file_path := 0]> file_stats
    | Some _ => file_stats
    end in
  <[file_path := default 0 (file_stats !! file_path) + 1]> file_stats.

Definition get_index_status (self : RAGBuilder) : IndexStatus :=
  match index self with
  | None => mkStatus STATUS_UNINITIALIZED 0 0 0 None
  | Some ix =>
      let file_stats := fold_left count_file (document_metadata self) ∅ in
      mkStatus STATUS_INITIALIZED (len (documents self))
               (Z.of_nat (size file_stats)) (Z.of_nat (Faiss.d ix)) (Some file_stats)
  end.

Definition clear_index (self : RAGBuilder) : bool * RAGBuilder :=
  (true, set_document_metadata [] (set_documents [] (set_index None self))).

Definition is_index_loaded (self : RAGBuilder) : bool :=
  match index self with
  | None => false
  | Some _ => 0 <? len (documents self)
  end.

(** *** The states the public operations reach

    [step okW okL self self'] holds when one call of [add_document],
    [add_documents_from_folder], [clear_index], [save_index], [load_index],
    [search] or [get_index_status] takes the builder from [self] to
    [self']. [okW] restricts the worlds of the ingestions and [okL] the
    artifacts handed to [load_index]. *)

Section Reachability.

Variable okW : World -> Prop.
Variable okL : FileSystem -> str -> Prop.

Inductive step : RAGBuilder -> RAGBuilder -> Prop :=
  | step_add_document w file_path metadata self :
      okW w ->
      step self (snd (add_document w file_path metadata self))
  | step_add_documents_from_folder fw folder_path file_extensions self :
      (forall p, okW (world_at fw p)) ->
      step self (snd (add_documents_from_folder fw folder_path file_extensions self))
  | step_clear_index self :
      step self (snd (clear_index self))
  | step_save_index sw file_path fs self :
      step self (snd (save_index sw file_path fs self))
  | step_load_index fs file_path self :
      okL fs file_path ->
      step self (snd (load_index fs file_path self))
  | step_search (w : World) (query : str) (k : Z) self :
      step self self
  | step_get_index_status self :
      step self self.

Inductive reachable (model : str) : RAGBuilder -> Prop :=
  | reachable_init : reachable model (init model)
  | reachable_step self self' :
      reachable model self -> step self self' -> reachable model self'.

End Reachability.

(** The alignment of the corpus store with the vector index. *)
Definition aligned (self : RAGBuilder) : Prop :=
  length (documents self) = length (document_metadata self) /\
  length (document_metadata self) = vector_count self.

(** The embedding client's contract: one vector per text. *)
Definition one_vector_per_text (w : World) : Prop :=
  forall texts embeddings,
    embedding_service w texts = Some embeddings ->
    length embeddings = length texts.

(** The two artifacts of a named index agree: when the blob decodes to an
    index, the sidecar is a JSON object with both lists, each with as many
    entries as the index has vectors. *)
Definition artifacts_agree (fs : FileSystem) (file_path : str) : Prop :=
  forall ix, fs !! index_path file_path = Some (FaissBlob ix) ->
    exists data docs ms,
      fs !! json_path file_path = Some (JsonFile data) /\
      j_documents data = Some docs /\ j_metadata data = Some ms /\
      length docs = Faiss.ntotal ix /\ length ms = Faiss.ntotal ix.

End Rag.

(** ** Vocabulary of the statements *)

Module Spec.

Import Chunker Rag.

(** A string that is not empty and has no white space at either end. *)
Definition starts_nonspace (s : str) : Prop :=
  match s with
  | [] => False
  | c :: _ => isspace c = false
  end.

Definition trimmed (s : str) : Prop :=
  starts_nonspace s /\ starts_nonspace (rev s).

(** The accumulator holding the sentences of [g]. *)
Definition glue (g : list str) : str :=
  concat (map (fun s => s ++ [SPACE]) g).

(** The chunk made of the sentences of [g]. *)
Definition chunk_of (g : list str) : str := strip (glue g).

(** A run of sentences that the packing loop may close as a chunk: a single
    sentence, or several that fit. *)
Definition fits (chunk_size : Z) (g : list str) : Prop :=
  g <> [] /\ ((exists s, g = [s]) \/ len (glue g) <= chunk_size + 1).

(** The soft size bound as the design document words it: every chunk but
    the last is at most [chunk_size] plus the length of a sentence. *)
Definition soft_size_bound (nlp : str -> list str) (text : str) (chunk_size : Z) : Prop :=
  forall c, c ∈ removelast (split_text nlp text chunk_size) ->
    exists s, s ∈ packed_sentences nlp text /\ len c <= chunk_size + len s.

(** The bound for every chunk, the last one too, with the rest of what the
    chunker promises: chunks are trimmed and not empty, a chunk that exceeds
    the size is one whole sentence, a sentence that exceeds the size is a
    chunk, and the chunks are consecutive runs of the sentences. *)
Definition chunks_well_formed (nlp : str -> list str) (text : str) (chunk_size : Z) : Prop :=
  (forall c, c ∈ split_text nlp text chunk_size ->
     strip c = c /\ c <> [] /\
     (len c <= chunk_size \/ c ∈ packed_sentences nlp text) /\
     exists s, s ∈ packed_sentences nlp text /\ len c <= chunk_size + len s) /\
  (forall s, s ∈ packed_sentences nlp text -> chunk_size < len s ->
     s ∈ split_text nlp text chunk_size) /\
  (exists groups,
     split_text nlp text chunk_size = map chunk_of groups /\
     concat groups = packed_sentences nlp text /\
     Forall (fun g => g <> []) groups).








(** The builder a successful [add_document] leaves behind. *)
Definition committed (w : World) (path : str) (md : option Meta)
    (self : RAGBuilder) (chunks : list str) (rows : list Np.vector) (dim : nat)
  : RAGBuilder :=
  mkBuilder (embedding_model self)
    (Some (Faiss.mkIndex
             (match index self with Some ix => Faiss.d ix | None => dim end)
             (match index self with Some ix => Faiss.xb ix | None => [] end ++ rows)))
    (documents self ++ chunks)
    (document_metadata self
       ++ imap (fun i _ => chunk_metadata path (now w i) md) chunks).

End Spec.

(** ** Sample inputs *)

Module Sample.

Import Np Chunker Rag.

(** A segmenter that finds three sentences, whatever the text. *)
Definition three_sentences (text : str) : list str :=
  [lit "A."; lit " B. "; lit "CCCC."].

(** A segmenter that finds two short sentences. *)
Definition two_sentences (text : str) : list str := [lit "A."; lit "B."].

(** Text files can be read; the service answers with one vector of one
    coordinate per text. *)
Definition world : World :=
  mkWorld (fun _ => None) (fun _ => None) (fun _ => Some (lit "Hello. World."))
          two_sentences
          (fun texts => Some (map (fun t => Arr [Num (inject_Z (len t))]) texts))
          (fun _ => lit "2024-01-01T00:00:00").

(** A builder holding one chunk and its vector. *)
Definition one_document : RAGBuilder :=
  mkBuilder DEFAULT_EMBEDDING_MODEL
            (Some (Faiss.mkIndex 1 [[0%Q]]))
            [lit "the only chunk"]
            [{[lit "file_path" := lit "a.txt"]}].

(** A blob of two vectors next to a sidecar of one document. *)
Definition mismatched_artifacts : FileSystem :=
  <[index_path (lit "idx") := FaissBlob (Faiss.mkIndex 1 [[0%Q]; [1%Q]])]>
    (<[json_path (lit "idx") :=
         JsonFile (mkSidecar (Some [lit "the only chunk"]) (Some [∅]) None None)]> ∅).

(** A blob without its sidecar. *)
Definition blob_only : FileSystem :=
  <[index_path (lit "idx") := FaissBlob (Faiss.mkIndex 1 [[0%Q]; [1%Q]])]> ∅.

Definition save_world : SaveWorld :=
  mkSaveWorld [] true Written Written (lit "2024-01-02T00:00:00").

(** A folder with a text file, a Markdown file, a PDF that cannot be read
    and a text file in a sub-directory. *)
Definition folder_world : FolderWorld :=
  mkFolderWorld
    (fun _ => Some (Dir [lit "a.txt"; lit "b.md"; lit "c.pdf"]
                        [(lit "sub", Dir [lit "d.TXT"] [])]))
    (fun _ => world)
    (fun _ _ => true).



(** A service that answers each text with a matrix of one row in place of
    a vector. *)
Definition nested_answer : World :=
  mkWorld (fun _ => None) (fun _ => None) (fun _ => Some (lit "Hello. World."))
          two_sentences
          (fun texts => Some (map (fun t => Arr [Arr [Num (inject_Z (len t))]]) texts))
          (fun _ => lit "2024-01-01T00:00:00").

End Sample.

(** ** Further vocabulary: chunker *)

Module ChunkerSpec.

Import Chunker Spec.

(** A piece of the fallback split that was cut: it ends with its only
    sentence-final mark. *)
Definition cut_piece (p : str) : Prop :=
  exists body c, p = body ++ [c] /\ is_terminal c = true /\
                 Forall (fun x => is_terminal x = false) body.

(** The first sentence of the run [g2] did not fit after the run [g1]: the
    test [len(current_chunk) + len(sentence) <= chunk_size] failed. *)
Definition breaks (chunk_size : Z) (g1 g2 : list str) : Prop :=
  match g2 with
  | s :: _ => chunk_size < len (glue g1) + len s
  | [] => True
  end.

(** [R] holds between every element and the next one. *)
Fixpoint linked {A} (R : A -> A -> Prop) (l : list A) : Prop :=
  match l with
  | a :: tl =>
      match tl with
      | b :: _ => R a b /\ linked R tl
      | [] => True
      end
  | [] => True
  end.

(** The pending run as a list of runs. *)
Definition pending (g : list str) : list (list str) :=
  match g with
  | [] => []
  | _ :: _ => [g]
  end.

End ChunkerSpec.

(** ** Further vocabulary: builder *)

Module RagSpec.

Import Rag.

(** [meta.get("file_path", "未知")] *)
Definition file_path_of (meta : Meta) : str :=
  default UNKNOWN_FILE (meta !! lit "file_path").

(** The file paths of the metadata entries, in order. *)
Definition file_paths (self : RAGBuilder) : list str :=
  map file_path_of (document_metadata self).

(** How many of the entries [paths] are [p]. *)
Definition occurrences (p : str) (paths : list str) : Z :=
  len (List.filter (fun q => bool_decide (q = p)) paths).

(** [self'] holds what [self] holds, at the same positions, and possibly
    more after it; the width of an index that exists does not change. *)
Definition extends (self self' : RAGBuilder) : Prop :=
  embedding_model self' = embedding_model self /\
  documents self `prefix_of` documents self' /\
  document_metadata self `prefix_of` document_metadata self' /\
  match index self with
  | None => True
  | Some ix =>
      exists ix', index self' = Some ix' /\ Faiss.d ix' = Faiss.d ix /\
                  Faiss.xb ix `prefix_of` Faiss.xb ix'
  end.

(** The two small sigmas taken as one letter. *)
Definition fold_sigma (s : str) : str :=
  map (fun c => if (c =? SMALL_FINAL_SIGMA)%N then SMALL_SIGMA else c) s.

(** No character of [s] is a small sigma. *)
Definition no_sigma (s : str) : bool :=
  forallb (fun c => negb (c =? SMALL_FINAL_SIGMA)%N && negb (c =? SMALL_SIGMA)%N) s.

End RagSpec.

(** ** Citation validation against the index (citation_validator.py) *)

Module Validator.

Import Rag.

(** What a citation dict holds under one of the keys that are read: the
    key is missing, holds [None], or holds a string. *)
Inductive field : Type :=
  | Missing
  | Null
  | Text (s : str).

(** [citation.get(key)] inside an f-string *)
Definition format_get (f : field) : str :=
  match f with
  | Text s => s
  | Missing | Null => lit "None"
  end.

(** [citation.get(key, "")] inside an f-string *)
Definition format_get_default (f : field) : str :=
  match f with
  | Text s => s
  | Missing => []
  | Null => lit "None"
  end.

(** A citation dict: the keys [validate_with_rag] reads, the keys it
    writes (absent until written), and the other entries. *)
Record Citation : Type := mkCitation {
  citation_type : field;
  title : field;
  content : field;
  others : gmap str str;
  validated : option bool;
  validation_result : option str;
  rag_results : option (list Hit);
  similarity_scores : option (list Q)
}.

(** 通过RAG验证找到相关文档 *)
Definition RESULT_FOUND : str :=
  [36890; 36807; 82; 65; 71; 39564; 35777; 25214; 21040; 30456; 20851; 25991; 26723]%N.

(** 通过RAG验证未找到相关文档 *)
Definition RESULT_NOT_FOUND : str :=
  [36890; 36807; 82; 65; 71; 39564; 35777; 26410; 25214; 21040; 30456; 20851;
   25991; 26723]%N.

(** [f"{title} {content}"] *)
Definition query_of (citation : Citation) : str :=
  format_get (title citation) ++ [SPACE] ++ format_get_default (content citation).

(** The assignments of the branch [if results:]. *)
Definition mark_found (results : list Hit) (citation : Citation) : Citation :=
  mkCitation (citation_type citation) (title citation) (content citation)
             (others citation)
             (Some true) (Some RESULT_FOUND) (Some results) (Some (map score results)).

(** The assignments of the [else] branch; the two result keys are not
    touched. *)
Definition mark_not_found (citation : Citation) : Citation :=
  mkCitation (citation_type citation) (title citation) (content citation)
             (others citation)
             (Some false) (Some RESULT_NOT_FOUND)
             (rag_results citation) (similarity_scores citation).

(** The loop of [validate_with_rag]. The dicts are updated in place and
    appended to [validated_citations], so that list is also the part of the
    caller's list already gone through. The second component is the
    caller's list at the end, also when [search] raised. *)
Fixpoint validate_loop (w : World) (rag_builder : RAGBuilder)
    (citations validated_citations : list Citation)
  : result (list Citation) * list Citation :=
  match citations with
  | [] => (Ok validated_citations, validated_citations)
  | citation :: rest =>
      match search w rag_builder (query_of citation) 3 with
      | Raise e => (Raise e, validated_citations ++ citation :: rest)
      | Ok results =>
          let citation' :=
            if truthy results then mark_found results citation
            else mark_not_found citation in
          validate_loop w rag_builder rest (validated_citations ++ [citation'])
      end
  end.

Definition validate_with_rag (w : World) (rag_builder : RAGBuilder)
    (citations : list Citation) : result (list Citation) * list Citation :=
  validate_loop w rag_builder citations [].

(** The entries of a citation that validation reads and never writes. *)
Definition source_fields (c : Citation) : field * field * field * gmap str str :=
  (citation_type c, title c, content c, others c).

(** A citation marked as found with exactly three results. *)
Definition accepted (c : Citation) : Prop :=
  validated c = Some true /\ validation_result c = Some RESULT_FOUND /\
  exists hits, rag_results c = Some hits /\ length hits = 3%nat /\
               similarity_scores c = Some (map score hits).

End Validator.

(** ** Configuration (config_manager.py) *)

Module Config.

Import Rag.

(** The values [json.load] returns; numbers are integers here. *)
#[local] Set Warnings "-register-all".
Inductive json : Type :=
  | JNull
  | JBool (b : bool)
  | JInt (z : Z)
  | JStr (s : str)
  | JList (l : list json)
  | JDict (d : gmap str json).

Inductive cfg_exn : Type :=
  | CKeyError
  | CTypeError
  | CAttributeError.

Inductive outcome (A : Type) : Type :=
  | Return (a : A)
  | Throw (e : cfg_exn).
Arguments Return {A} a.
Arguments Throw {A} e.

Definition and_then {A B} (m : outcome A) (f : A -> outcome B) : outcome B :=
  match m with
  | Return a => f a
  | Throw e => Throw e
  end.

(** [x == s] for a string [s] *)
Definition is_str (s : str) (x : json) : bool :=
  match x with
  | JStr t => bool_decide (t = s)
  | _ => false
  end.

(** [key in s] for two strings *)
Fixpoint substring (key s : str) : bool :=
  startswith s key ||
  match s with
  | [] => false
  | _ :: s' => substring key s'
  end.

(** [key in x] for a string [key] *)
Definition contains (key : str) (x : json) : outcome bool :=
  match x with
  | JDict d => Return (bool_decide (is_Some (d !! key)))
  | JList l => Return (existsb (is_str key) l)
  | JStr s => Return (substring key s)
  | JNull | JBool _ | JInt _ => Throw CTypeError
  end.


(** [x[key] = v] for a string [key] *)
Definition setitem (x : json) (key : str) (v : json) : outcome json :=
  match x with
  | JDict d => Return (JDict (<[key := v]> d))
  | _ => Throw CTypeError
  end.

Definition DEFAULT_INDEX_STATUS : json :=
  JDict (<[lit "document_count" := JInt 0]>
           (<[lit "file_count" := JInt 0]>
              (<[lit "dimension" := JInt 0]>
                 (<[lit "status" := JStr STATUS_UNINITIALIZED]> ∅)))).

(** The keys of [default_config], in the order of the dict literal. *)
Definition DEFAULT_KEYS : list str :=
  [lit "api_key"; lit "last_index_path"; lit "use_proxy"; lit "proxy_url";
   lit "recent_files"; lit "index_status"].

Definition default_config : gmap str json :=
  <[lit "api_key" := JStr []]>
    (<[lit "last_index_path" := JStr []]>
       (<[lit "use_proxy" := JBool false]>
          (<[lit "proxy_url" := JStr []]>
             (<[lit "recent_files" := JList []]>
                (<[lit "index_status" := DEFAULT_INDEX_STATUS]> ∅))))).

(** What a file holds for [json.load]: a JSON value, or something that
    cannot be read or parsed. *)
Inductive cfile : Type :=
  | Holds (j : json)
  | Unreadable.

Abbreviation ConfigFiles := (gmap str cfile).

(** One iteration of [for key in default_config]. *)
Definition fill_default (config : outcome json) (key : str) : outcome json :=
  and_then config (fun config =>
  and_then (contains key config) (fun present =>
  if present then Return config
  else setitem config key (default JNull (default_config !! key)))).

Definition load_config (fs : ConfigFiles) (config_file : str) : json :=
  match fs !! config_file with
  | None => JDict default_config
  | Some Unreadable => JDict default_config
  | Some (Holds config) =>
      match fold_left fill_default DEFAULT_KEYS (Return config) with
      | Return config' => config'
      | Throw _ => JDict default_config
      end
  end.

Record ConfigManager : Type := mkConfigManager {
  config_file : str;
  config : json
}.

(** [ConfigManager.__init__] *)
Definition init (fs : ConfigFiles) (config_file : str) : ConfigManager :=
  mkConfigManager config_file (load_config fs config_file).

Definition set_config (c : json) (self : ConfigManager) : ConfigManager :=
  mkConfigManager (config_file self) c.

(** [save_config]: the boolean and the files afterwards; [o] is what
    happens to the write. *)
Definition save_config (o : write_outcome) (fs : ConfigFiles) (self : ConfigManager)
  : bool * ConfigFiles :=
  match o with
  | Written => (true, <[config_file self := Holds (config self)]> fs)
  | FailedUntouched => (false, fs)
  | FailedPartial => (false, <[config_file self := Unreadable]> fs)
  end.

(** [self.config.get(key, default)] *)
Definition get (self : ConfigManager) (key : str) (dflt : json) : outcome json :=
  match config self with
  | JDict d => Return (default dflt (d !! key))
  | _ => Throw CAttributeError
  end.

(** [set]: the outcome, the files and the manager afterwards. *)
Definition set (o : write_outcome) (fs : ConfigFiles) (self : ConfigManager)
    (key : str) (value : json) : outcome bool * ConfigFiles * ConfigManager :=
  match setitem (config self) key value with
  | Throw e => (Throw e, fs, self)
  | Return c =>
      let self' := set_config c self in
      (Return (fst (save_config o fs self')), snd (save_config o fs self'), self')
  end.

Definition update_index_status (o : write_outcome) (fs : ConfigFiles)
    (self : ConfigManager) (status : json)
  : outcome bool * ConfigFiles * ConfigManager :=
  set o fs self (lit "index_status") status.




End Config.

(** ** Properties of the chunker *)

Module ChunkerFacts.

Import Chunker Spec.

Lemma isspace_SPACE : isspace SPACE = true.
Proof. reflexivity. Qed.

Lemma lstrip_fix s : starts_nonspace s -> lstrip s = s.
Proof. destruct s as [|c s]; simpl; [tauto|]. intros ->. reflexivity. Qed.

Lemma lstrip_starts s : lstrip s <> [] -> starts_nonspace (lstrip s).
Proof.
  induction s as [|c s IH]; simpl; [congruence|].
  destruct (isspace c) eqn:E; [exact IH|]. intros _. simpl. exact E.
Qed.

Lemma lstrip_snoc l c :
  isspace c = false -> exists u, lstrip (l ++ [c]) = u ++ [c].
Proof.
  intros Hc. induction l as [|a l [u IH]]; simpl.
  - rewrite Hc. exists []. reflexivity.
  - destruct (isspace a).
    + exists u. exact IH.
    + exists (a :: l). reflexivity.
Qed.

Lemma rstrip_space x : rstrip (x ++ [SPACE]) = rstrip x.
Proof. unfold rstrip. rewrite rev_unit. simpl. reflexivity. Qed.

Lemma starts_nonspace_app s t : starts_nonspace s -> starts_nonspace (s ++ t).
Proof. destruct s; simpl; tauto. Qed.

Lemma strip_trimmed s : trimmed s -> strip s = s.
Proof.
  intros [H1 H2]. unfold strip, rstrip.
  rewrite (lstrip_fix _ H1), (lstrip_fix _ H2). apply rev_involutive.
Qed.

Lemma strip_body_space body : trimmed body -> strip (body ++ [SPACE]) = body.
Proof.
  intros [H1 H2]. unfold strip.
  rewrite (lstrip_fix (body ++ [SPACE])) by (apply starts_nonspace_app; exact H1).
  rewrite rstrip_space. unfold rstrip.
  rewrite (lstrip_fix _ H2). apply rev_involutive.
Qed.

Lemma trimmed_strip s : strip s <> [] -> trimmed (strip s).
Proof.
  intros Hne. unfold strip, rstrip in *.
  assert (Hr : lstrip (rev (lstrip s)) <> []).
  { intros E. apply Hne. rewrite E. reflexivity. }
  split.
  - destruct (lstrip s) as [|c t] eqn:Et.
    + exfalso. apply Hr. reflexivity.
    + assert (Hc : isspace c = false).
      { pose proof (lstrip_starts s) as Hs. rewrite Et in Hs. apply Hs. congruence. }
      simpl (rev (c :: t)). destruct (lstrip_snoc (rev t) c Hc) as [u Hu].
      rewrite Hu, rev_unit. simpl. exact Hc.
  - rewrite rev_involutive. apply lstrip_starts. exact Hr.
Qed.

Lemma trimmed_nonempty s : trimmed s -> s <> [].
Proof. intros [H _] ->. exact H. Qed.

Lemma stripped_nonempty_trimmed raw : Forall trimmed (stripped_nonempty raw).
Proof.
  unfold stripped_nonempty. induction raw as [|r raw IH]; simpl; [constructor|].
  destruct (truthy (strip r)) eqn:E; [|exact IH].
  constructor; [|exact IH]. apply trimmed_strip.
  destruct (strip r); [discriminate|congruence].
Qed.

Lemma glue_snoc g s : glue (g ++ [s]) = glue g ++ s ++ [SPACE].
Proof.
  unfold glue. rewrite map_app, concat_app. simpl.
  rewrite app_nil_r. reflexivity.
Qed.

Lemma glue_cons s g : glue (s :: g) = s ++ [SPACE] ++ glue g.
Proof. unfold glue. simpl. rewrite <- app_assoc. reflexivity. Qed.

(** The accumulator of a non-empty run is a trimmed body and one space. *)
Lemma glue_body g :
  g <> [] -> Forall trimmed g -> exists body, glue g = body ++ [SPACE] /\ trimmed body.
Proof.
  induction g as [|s g IH]; [congruence|]. intros _ Hall.
  inversion Hall as [|? ? Hs Hg]; subst.
  destruct g as [|s' g'].
  - exists s. split; [|exact Hs]. rewrite glue_cons. reflexivity.
  - destruct IH as [body [Hb [Hb1 Hb2]]]; [congruence|exact Hg|].
    exists (s ++ [SPACE] ++ body). split.
    + rewrite glue_cons, Hb. rewrite <- !app_assoc. reflexivity.
    + split.
      * apply starts_nonspace_app. apply Hs.
      * rewrite !rev_app_distr. do 2 apply starts_nonspace_app. exact Hb2.
Qed.

Lemma glue_chunk g :
  g <> [] -> Forall trimmed g -> glue g = chunk_of g ++ [SPACE] /\ trimmed (chunk_of g).
Proof.
  intros Hne Hall. destruct (glue_body g Hne Hall) as [body [Hb Ht]].
  unfold chunk_of. rewrite Hb, (strip_body_space _ Ht). tauto.
Qed.

Lemma chunk_of_single s : trimmed s -> chunk_of [s] = s.
Proof.
  intros Hs. unfold chunk_of, glue. simpl. rewrite app_nil_r.
  apply strip_body_space. exact Hs.
Qed.

Lemma truthy_glue g : Forall trimmed g -> truthy (glue g) = truthy g.
Proof.
  destruct g as [|s g]; [reflexivity|]. intros Hall.
  destruct (glue_body (s :: g)) as [body [Hb _]]; [congruence|exact Hall|].
  rewrite Hb. destruct body; reflexivity.
Qed.

Lemma len_app {A} (l1 l2 : list A) : len (l1 ++ l2) = len l1 + len l2.
Proof. unfold len. rewrite length_app. lia. Qed.

Lemma len_glue_elem g s : s ∈ g -> len s + 1 <= len (glue g).
Proof.
  induction g as [|a g IH]; intros Hin; [inversion Hin|].
  rewrite glue_cons, !len_app. change (len [SPACE]) with 1.
  assert (0 <= len a) by (unfold len; lia).
  assert (0 <= len (glue g)) by (unfold len; lia).
  apply elem_of_cons in Hin as [->|Hin]; [lia|]. specialize (IH Hin). lia.
Qed.

Lemma glue_single s : glue [s] = s ++ [SPACE].
Proof. unfold glue. simpl. rewrite app_nil_r. reflexivity. Qed.

Lemma fits_single chunk_size s : fits chunk_size [s].
Proof. split; [congruence|]. left. exists s. reflexivity. Qed.

(** The packing loop keeps closed runs and a pending run; together they
    are the sentences read so far, in order. *)
Lemma pack_groups chunk_size sentences : forall done g,
  Forall trimmed sentences -> Forall trimmed g ->
  g = [] \/ fits chunk_size g -> Forall (fits chunk_size) done ->
  exists done' g',
    pack chunk_size sentences (map chunk_of done, glue g) = (map chunk_of done', glue g') /\
    concat done' ++ g' = concat done ++ g ++ sentences /\
    Forall trimmed g' /\ (g' = [] \/ fits chunk_size g') /\
    Forall (fits chunk_size) done' /\ (g' = [] -> g = [] /\ sentences = []).
Proof.
  induction sentences as [|s rest IH]; intros done g Hss Hg Hfit Hdone.
  - exists done, g. simpl. rewrite app_nil_r. tauto.
  - inversion Hss as [|? ? Hs Hrest]; subst.
    unfold pack. simpl fold_left. fold (pack chunk_size rest).
    unfold pack_step at 1.
    destruct (len (glue g) + len s <=? chunk_size) eqn:Hle.
    + apply Z.leb_le in Hle. rewrite <- glue_snoc.
      destruct (IH done (g ++ [s])) as (done' & g' & Hp & Hc & Hg' & Hf' & Hd' & He);
        try assumption.
      * apply Forall_app; split; [exact Hg|]. constructor; [exact Hs|constructor].
      * right. split; [destruct g; discriminate|]. right.
        rewrite glue_snoc, !len_app. change (len [SPACE]) with 1. lia.
      * exists done', g'. repeat split; try assumption.
        -- rewrite Hc, <- !app_assoc. reflexivity.
        -- apply He in H. destruct H as [H _]. destruct g; discriminate.
        -- apply He in H. destruct H as [H _]. destruct g; discriminate.
    + rewrite (truthy_glue g Hg). rewrite <- glue_single.
      destruct g as [|a g0].
      * simpl truthy. cbv iota.
        destruct (IH done [s]) as (done' & g' & Hp & Hc & Hg' & Hf' & Hd' & He);
          try assumption.
        -- constructor; [exact Hs|constructor].
        -- right. apply fits_single.
        -- exists done', g'. repeat split; try assumption.
           apply He in H. destruct H as [H _]. discriminate.
      * simpl truthy. cbv iota.
        replace (map chunk_of done ++ [strip (glue (a :: g0))])
          with (map chunk_of (done ++ [a :: g0]))
          by (rewrite map_app; reflexivity).
        destruct (IH (done ++ [a :: g0]) [s]) as (done' & g' & Hp & Hc & Hg' & Hf' & Hd' & He);
          try assumption.
        -- constructor; [exact Hs|constructor].
        -- right. apply fits_single.
        -- apply Forall_app; split; [exact Hdone|]. constructor; [|constructor].
           destruct Hfit as [E|Hfit]; [discriminate|exact Hfit].
        -- exists done', g'. repeat split; try assumption.
           ++ rewrite Hc, concat_app. simpl. rewrite app_nil_r, <- !app_assoc. reflexivity.
           ++ apply He in H. destruct H as [H _]. discriminate.
           ++ apply He in H. destruct H as [H _]. discriminate.
Qed.

Lemma flush_groups chunk_size sentences :
  Forall trimmed sentences ->
  exists groups cur,
    flush (pack chunk_size sentences ([], [])) = (map chunk_of groups, cur) /\
    concat groups = sentences /\ Forall (fits chunk_size) groups.
Proof.
  intros Hss.
  destruct (pack_groups chunk_size sentences [] []) as (done' & g' & Hp & Hc & Hg' & Hf' & Hd' & He);
    try (constructor; fail); [exact Hss|left; reflexivity|].
  change (map chunk_of [], glue []) with (@nil str, @nil char) in Hp.
  rewrite Hp. unfold flush. rewrite (truthy_glue g' Hg').
  simpl in Hc. destruct g' as [|a g0].
  - exists done', (glue []). simpl truthy. cbv iota.
    rewrite app_nil_r in Hc. tauto.
  - exists (done' ++ [a :: g0]), (glue (a :: g0)). simpl truthy. cbv iota.
    rewrite map_app, concat_app. simpl. rewrite app_nil_r.
    repeat split; [exact Hc|].
    apply Forall_app; split; [exact Hd'|]. constructor; [|constructor].
    destruct Hf' as [E|Hf']; [discriminate|exact Hf'].
Qed.

(** The chunks are the runs of a partition of the sentences into
    consecutive runs, each a single sentence or several that fit. *)
Lemma split_text_groups nlp text chunk_size :
  exists groups,
    split_text nlp text chunk_size = map chunk_of groups /\
    concat groups = packed_sentences nlp text /\
    Forall (fits chunk_size) groups.
Proof.
  unfold split_text, packed_sentences.
  destruct (stripped_nonempty (nlp text)) as [|s ss] eqn:E.
  - change (flush (pack chunk_size [] ([], []))) with (@nil str, @nil char).
    cbv iota beta. simpl truthy. cbv iota.
    destruct (flush_groups chunk_size (stripped_nonempty (re_split text)))
      as (groups & cur & Hf & Hc & Hfit); [apply stripped_nonempty_trimmed|].
    exists groups. split; [exact (f_equal fst Hf)|tauto].
  - destruct (flush_groups chunk_size (s :: ss)) as (groups & cur & Hf & Hc & Hfit).
    { rewrite <- E. apply stripped_nonempty_trimmed. }
    rewrite Hf. exists groups.
    destruct groups as [|g groups]; [discriminate|]. simpl. tauto.
Qed.

Lemma packed_sentences_trimmed nlp text : Forall trimmed (packed_sentences nlp text).
Proof.
  unfold packed_sentences.
  destruct (stripped_nonempty (nlp text)) eqn:E.
  - apply stripped_nonempty_trimmed.
  - rewrite <- E. apply stripped_nonempty_trimmed.
Qed.

Lemma concat_elem {A} (groups : list (list A)) g x :
  g ∈ groups -> x ∈ g -> x ∈ concat groups.
Proof.
  intros Hg Hx. apply list_elem_of_In, in_concat. exists g.
  split; apply list_elem_of_In; assumption.
Qed.

Lemma concat_group_Forall {A} (P : A -> Prop) (groups : list (list A)) g :
  Forall P (concat groups) -> g ∈ groups -> Forall P g.
Proof.
  intros Hall Hg. apply Forall_forall. intros x Hx.
  rewrite Forall_forall in Hall. apply Hall. eapply concat_elem; eassumption.
Qed.

(** What holds of every chunk, whatever the size asked for. *)
Lemma split_text_chunk nlp text chunk_size c :
  c ∈ split_text nlp text chunk_size ->
  strip c = c /\ c <> [] /\
  (c ∈ packed_sentences nlp text \/
   len c <= chunk_size /\ exists s, s ∈ packed_sentences nlp text).
Proof.
  destruct (split_text_groups nlp text chunk_size) as (groups & Hs & Hc & Hfit).
  rewrite Hs. intros Hin. apply list_elem_of_fmap in Hin as [g [-> Hg]].
  pose proof (packed_sentences_trimmed nlp text) as Htr. rewrite <- Hc in Htr.
  pose proof (concat_group_Forall _ _ _ Htr Hg) as Hgt.
  rewrite Forall_forall in Hfit. destruct (Hfit g Hg) as [Hne Hcase].
  destruct (glue_chunk g Hne Hgt) as [Hglue Hct].
  split; [apply strip_trimmed; exact Hct|].
  split; [apply trimmed_nonempty; exact Hct|].
  rewrite <- Hc. destruct Hcase as [[s ->]|Hle].
  - left. inversion Hgt; subst. rewrite chunk_of_single by assumption.
    eapply concat_elem; [exact Hg|]. constructor.
  - right. split.
    + rewrite Hglue, len_app in Hle. change (len [SPACE]) with 1 in Hle. lia.
    + destruct g as [|s g]; [congruence|]. exists s.
      eapply concat_elem; [exact Hg|]. constructor.
Qed.

(** A sentence longer than the size asked for is a chunk by itself. *)
Lemma split_text_oversized nlp text chunk_size s :
  s ∈ packed_sentences nlp text -> chunk_size < len s ->
  s ∈ split_text nlp text chunk_size.
Proof.
  destruct (split_text_groups nlp text chunk_size) as (groups & Hs & Hc & Hfit).
  rewrite Hs, <- Hc. intros Hin Hlong.
  pose proof (packed_sentences_trimmed nlp text) as Htr. rewrite <- Hc in Htr.
  apply list_elem_of_In, in_concat in Hin as [g [Hg Hsg]].
  apply list_elem_of_In in Hg. apply list_elem_of_In in Hsg.
  rewrite Forall_forall in Hfit. destruct (Hfit g Hg) as [Hne Hcase].
  apply list_elem_of_fmap. exists g. split; [|exact Hg].
  destruct Hcase as [[s' ->]|Hle].
  - apply list_elem_of_singleton in Hsg. subst s'.
    pose proof (concat_group_Forall _ _ _ Htr Hg) as Hgt. inversion Hgt; subst.
    symmetry. apply chunk_of_single. assumption.
  - pose proof (len_glue_elem g s Hsg). lia.
Qed.

Lemma elem_of_removelast {A} (x : A) (l : list A) : x ∈ removelast l -> x ∈ l.
Proof.
  induction l as [|a l IH]; intros H; [inversion H|].
  destruct l as [|b l]; [inversion H|].
  change (removelast (a :: b :: l)) with (a :: removelast (b :: l)) in H.
  apply elem_of_cons in H as [->|H]; [left|right; apply IH; exact H].
Qed.

(** C5. For every text and every size (a number of characters, so not
    negative), every chunk of [split_text] but the last is at most the size
    plus the length of one sentence long, and so is the last one; no chunk
    is empty and none has white space at its ends; a chunk longer than the
    size is one whole sentence, and a sentence longer than the size is a
    chunk by itself; the chunks are consecutive runs of the sentences, so
    that no sentence is cut. *)
Theorem split_text_size_bound nlp text chunk_size :
  0 <= chunk_size ->
  soft_size_bound nlp text chunk_size /\ chunks_well_formed nlp text chunk_size.
Proof.
  intros Hpos.
  assert (Hall : forall c : str, c ∈ split_text nlp text chunk_size ->
            strip c = c /\ c <> [] /\
            (len c <= chunk_size \/ c ∈ packed_sentences nlp text) /\
            exists s, s ∈ packed_sentences nlp text /\ len c <= chunk_size + len s).
  { intros c Hin.
    destruct (split_text_chunk nlp text chunk_size c Hin) as (Hs & Hne & Hcase).
    split; [exact Hs|]. split; [exact Hne|].
    destruct Hcase as [Hsent|[Hle [s Hsin]]].
    + split; [right; exact Hsent|]. exists c. split; [exact Hsent|lia].
    + split; [left; exact Hle|]. exists s. split; [exact Hsin|].
      unfold len in *. lia. }
  split; [|split; [exact Hall|split]].
  - intros c Hin. apply elem_of_removelast in Hin. apply Hall in Hin. tauto.
  - intros s. apply split_text_oversized.
  - destruct (split_text_groups nlp text chunk_size) as (groups & Hs & Hc & Hfit).
    exists groups. split; [exact Hs|]. split; [exact Hc|].
    eapply Forall_impl; [exact Hfit|]. intros g [Hne _]. exact Hne.
Qed.

Lemma split_text_size_bound_witness :
  0 <= 4 /\
  soft_size_bound Sample.three_sentences [] 4 /\
  chunks_well_formed Sample.three_sentences [] 4.
Proof.
  split; [lia|]. apply (split_text_size_bound Sample.three_sentences [] 4). lia.
Defined.

End ChunkerFacts.

(** ** Properties of the builder *)

Module RagFacts.

Import Np Chunker Rag Spec.
Local Open Scope rag_scope.

Lemma builder_eta self :
  mkBuilder (embedding_model self) (index self) (documents self) (document_metadata self) = self.
Proof. destruct self. reflexivity. Qed.

(** *** Single-file ingestion *)

Lemma append_chunks_spec w path md chunks : forall i self,
  append_chunks w path md i chunks self =
  mkBuilder (embedding_model self) (index self)
            (documents self ++ chunks)
            (document_metadata self
               ++ imap (fun j _ => chunk_metadata path (now w (i + j)) md) chunks).
Proof.
  induction chunks as [|c chunks IH]; intros i self.
  - simpl. rewrite !app_nil_r. symmetry. apply builder_eta.
  - simpl append_chunks. rewrite IH. simpl.
    rewrite <- !app_assoc. simpl. rewrite Nat.add_0_r.
    do 3 f_equal. apply imap_ext. intros j x _. simpl.
    rewrite Nat.add_succ_r. reflexivity.
Qed.

(** A matrix made by [np.array] has one row per embedding of the
    response, and at least one. *)
Lemma array_matrix embeddings cols rows :
  Np.array embeddings = Ok (Array2 cols rows) ->
  rows = map to_vector embeddings /\ embeddings <> [].
Proof.
  destruct embeddings as [|y ys]; [discriminate|].
  unfold Np.array.
  destruct (shape_of (Arr (y :: ys))) as [[|n [|c [|x l]]]|];
    try destruct n; try discriminate;
    intros H; injection H as _ <-; (split; [reflexivity|discriminate]).
Qed.

Lemma get_embeddings_rows w texts cols rows :
  get_embeddings w texts = Ok (Array2 cols rows) ->
  exists embeddings,
    embedding_service w texts = Some embeddings /\
    rows = map to_vector embeddings /\ embeddings <> [].
Proof.
  unfold get_embeddings. destruct (embedding_service w texts) as [emb|]; [|discriminate].
  destruct (Np.array emb) as [a|e] eqn:Ha; [|discriminate].
  intros H. injection H as ->. exists emb. split; [reflexivity|].
  eapply array_matrix. exact Ha.
Qed.

Lemma get_embeddings_length w texts cols rows :
  one_vector_per_text w ->
  get_embeddings w texts = Ok (Array2 cols rows) -> length rows = length texts.
Proof.
  intros Hw H. apply get_embeddings_rows in H as (emb & Hs & -> & _).
  rewrite length_map. apply Hw. exact Hs.
Qed.

(** Every failure of [get_embeddings] is the embedding failure. *)
Lemma get_embeddings_raise w texts e :
  get_embeddings w texts = Raise e -> e = EmbeddingServiceError.
Proof.
  unfold get_embeddings. destruct (embedding_service w texts) as [emb|].
  - destruct (Np.array emb); [discriminate|]. intros H. injection H as <-. reflexivity.
  - intros H. injection H as <-. reflexivity.
Qed.

(** The outcomes of [add_document]: it raises and leaves the builder as it
    was; or there was no index, the answer of the service is an array that
    the index refuses, and the new empty index stays; or it returns and has
    committed chunks, vectors and metadata. *)
Lemma add_document_cases w path md self :
  (exists e, add_document w path md self = (Raise e, self)) \/
  (exists text shape dim,
     index self = None /\
     extract_text_from_file w path = Ok text /\
     get_embeddings w (split_text (nlp w) text DEFAULT_CHUNK_SIZE) = Ok (ArrayN shape) /\
     shape1 (ArrayN shape) = Ok dim /\
     add_document w path md self
       = (Raise ValueError, set_index (Some (Faiss.new dim)) self)) \/
  (exists text rows dim,
     extract_text_from_file w path = Ok text /\
     get_embeddings w (split_text (nlp w) text DEFAULT_CHUNK_SIZE) = Ok (Array2 dim rows) /\
     add_document w path md self =
       (Ok (mkAddResult path
              (len (split_text (nlp w) text DEFAULT_CHUNK_SIZE))
              (len (documents self ++ split_text (nlp w) text DEFAULT_CHUNK_SIZE))),
        committed w path md self (split_text (nlp w) text DEFAULT_CHUNK_SIZE) rows dim)).
Proof.
  unfold add_document, bind, lift, get, ret, modify.
  destruct (extract_text_from_file w path) as [text|e] eqn:Htext; [|left; eauto].
  destruct (get_embeddings w (split_text (nlp w) text DEFAULT_CHUNK_SIZE))
    as [emb|e] eqn:Hemb; [|left; eauto].
  destruct (index self) as [ix|] eqn:Hix.
  - unfold index_add. rewrite Hix.
    destruct emb as [|cols rows|shape]; simpl; [left; eauto| |left; eauto].
    destruct (Nat.eqb cols (Faiss.d ix)) eqn:Hd; [|left; eauto].
    right; right. exists text, rows, cols. split; [reflexivity|]. split; [exact Hemb|].
    rewrite append_chunks_spec. unfold committed. rewrite Hix. reflexivity.
  - destruct emb as [|cols rows|shape]; [left; eauto| |].
    + simpl. unfold index_add. simpl. rewrite Nat.eqb_refl.
      right; right. exists text, rows, cols. split; [reflexivity|]. split; [exact Hemb|].
      rewrite append_chunks_spec. unfold committed. rewrite Hix. reflexivity.
    + destruct (shape1 (ArrayN shape)) as [dim|e] eqn:Hs; [|left; eauto].
      right; left. exists text, shape, dim.
      split; [reflexivity|]. split; [reflexivity|]. split; [exact Hemb|].
      split; [exact Hs|]. reflexivity.
Qed.

(** C4, as the code has it. A failure of the extraction
    ([UnsupportedFormat], [ExtractionError]) or of the embedding call
    ([EmbeddingServiceError]) reaches the caller and leaves the builder
    exactly as before the call. Any other failure leaves the documents, the
    metadata and an index that was there as before; but the first ingestion
    puts the new empty index in place before the vectors are added, and it
    stays when the index then refuses the answer of the service (an array
    of three dimensions or more). When [add_document] succeeds, the chunks
    of the file, their vectors and their metadata entries are all appended
    together. *)
Theorem add_document_atomic w path md self :
  (forall e, extract_text_from_file w path = Raise e ->
     add_document w path md self = (Raise e, self)) /\
  (forall text e, extract_text_from_file w path = Ok text ->
     get_embeddings w (split_text (nlp w) text DEFAULT_CHUNK_SIZE) = Raise e ->
     e = EmbeddingServiceError /\ add_document w path md self = (Raise e, self)) /\
  (forall e self', add_document w path md self = (Raise e, self') ->
     self' = self \/
     exists text shape dim,
       index self = None /\ e = ValueError /\
       extract_text_from_file w path = Ok text /\
       get_embeddings w (split_text (nlp w) text DEFAULT_CHUNK_SIZE) = Ok (ArrayN shape) /\
       shape1 (ArrayN shape) = Ok dim /\
       self' = set_index (Some (Faiss.new dim)) self) /\
  (forall r self', add_document w path md self = (Ok r, self') ->
     exists text rows dim,
       extract_text_from_file w path = Ok text /\
       get_embeddings w (split_text (nlp w) text DEFAULT_CHUNK_SIZE) = Ok (Array2 dim rows) /\
       self' = committed w path md self (split_text (nlp w) text DEFAULT_CHUNK_SIZE) rows dim /\
       r = mkAddResult path (len (split_text (nlp w) text DEFAULT_CHUNK_SIZE))
                       (len (documents self'))).
Proof.
  split; [|split; [|split]].
  - intros e He. unfold add_document, bind, lift. rewrite He. reflexivity.
  - intros text e Ht He. split; [eapply get_embeddings_raise; exact He|].
    unfold add_document, bind, lift. rewrite Ht, He. reflexivity.
  - intros e self' H.
    destruct (add_document_cases w path md self)
      as [[e' He]|[(t & shape & dim & Hix & Ht & Hg & Hs & Hbad)|(t & rows & dim & _ & _ & Hok)]];
      rewrite H in *.
    + left. congruence.
    + right. injection Hbad as -> ->. exists t, shape, dim. repeat split; assumption.
    + discriminate.
  - intros r self' H.
    destruct (add_document_cases w path md self)
      as [[e' He]|[(t & shape & dim & _ & _ & _ & _ & Hbad)|(t & rows & dim & Ht & Hg & Hok)]];
      rewrite H in *; [discriminate|discriminate|].
    injection Hok as -> ->. exists t, rows, dim.
    split; [exact Ht|]. split; [exact Hg|]. split; reflexivity.
Qed.

Lemma add_document_atomic_witness :
  add_document Sample.world (lit "notes.md") None Sample.one_document
    = (Raise UnsupportedFormat, Sample.one_document).
Proof.
  apply (proj1 (add_document_atomic Sample.world (lit "notes.md") None
                  Sample.one_document)).
  reflexivity.
Defined.

(** C4, as worded, fails: the service answers each of the chunks of the
    first file with a matrix in place of a vector; [add_document] raises,
    and the builder that had no index now has an empty one, which the
    status reports as initialized. *)
Lemma add_document_leaves_empty_index :
  add_document Sample.nested_answer (lit "a.txt") None (init [])
    = (Raise ValueError, set_index (Some (Faiss.new 1)) (init [])) /\
  index (init []) = None /\
  index (snd (add_document Sample.nested_answer (lit "a.txt") None (init [])))
    = Some (Faiss.new 1) /\
  status (get_index_status (init [])) = STATUS_UNINITIALIZED /\
  status (get_index_status
            (snd (add_document Sample.nested_answer (lit "a.txt") None (init []))))
    = STATUS_INITIALIZED.
Proof. repeat split. Qed.

(** *** Clearing and status *)

(** C9. After [clear_index] the status is the uninitialized one, with no
    documents, no files and dimension 0, whatever the builder held; and
    clearing again gives the same outcome and the same builder. *)
Theorem clear_index_status self :
  fst (clear_index self) = true /\
  get_index_status (snd (clear_index self))
    = mkStatus STATUS_UNINITIALIZED 0 0 0 None /\
  clear_index (snd (clear_index self)) = clear_index self.
Proof. repeat split. Qed.

(** *** Building an index from texts *)

(** C10. For a non-empty list of documents whose embedding succeeds,
    [build_index] returns and stores the documents, a fresh index of their
    vectors, and as metadata the caller's list as it is when that list is
    not empty, of whatever length, or else one empty dict per document. *)
Theorem build_index_stores_metadata w docs metadata self cols rows :
  docs <> [] ->
  get_embeddings w docs = Ok (Array2 cols rows) ->
  build_index w docs metadata self =
    (Ok tt,
     mkBuilder (embedding_model self) (Some (Faiss.mkIndex cols rows)) docs
               (match metadata with
                | Some (m :: ms) => m :: ms
                | _ => map (fun _ => ∅) docs
                end)).
Proof.
  intros Hne Hemb. unfold build_index.
  destruct docs as [|doc docs]; [congruence|]. simpl truthy. simpl negb. cbv iota.
  unfold bind, lift, modify. rewrite Hemb. simpl.
  unfold index_add. simpl. rewrite Nat.eqb_refl. reflexivity.
Qed.

(** Two documents and a metadata list of one entry are stored as they are. *)
Lemma build_index_stores_metadata_witness :
  [lit "first"; lit "second"] <> [] /\
  get_embeddings Sample.world [lit "first"; lit "second"]
    = Ok (Array2 1 [[5%Q]; [6%Q]]) /\
  build_index Sample.world [lit "first"; lit "second"]
              (Some [{[lit "file_path" := lit "a.txt"]}]) (init [])
    = (Ok tt,
       mkBuilder [] (Some (Faiss.mkIndex 1 [[5%Q]; [6%Q]]))
                 [lit "first"; lit "second"]
                 [{[lit "file_path" := lit "a.txt"]}]).
Proof.
  split; [discriminate|]. split; [reflexivity|].
  apply (build_index_stores_metadata Sample.world [lit "first"; lit "second"]
           (Some [{[lit "file_path" := lit "a.txt"]}]) (init []) 1 [[5%Q]; [6%Q]]).
  - discriminate.
  - reflexivity.
Defined.

(** *** Persistence *)

Lemma index_json_paths_differ file_path : index_path file_path <> json_path file_path.
Proof.
  unfold index_path, json_path. intros H. apply app_inv_head in H. discriminate.
Qed.

(** [save_index] assigns nothing. *)
Lemma save_index_keeps_builder sw file_path fs self :
  snd (save_index sw file_path fs self) = self.
Proof.
  unfold save_index. destruct (index self); [|reflexivity].
  destruct (makedirs_ok sw); [|reflexivity].
  destruct (written (index_write sw)); reflexivity.
Qed.

(** The outcomes of [load_index], by what the two files hold. *)
Lemma load_index_cases fs file_path self :
  load_index fs file_path self =
    match fs !! index_path file_path with
    | Some (FaissBlob ix) =>
        match fs !! json_path file_path with
        | Some (JsonFile data) =>
            match j_documents data with
            | Some docs =>
                match j_metadata data with
                | Some ms => (true, mkBuilder (embedding_model self) (Some ix) docs ms)
                | None => (false, set_documents docs (set_index (Some ix) self))
                end
            | None => (false, set_index (Some ix) self)
            end
        | _ => (false, set_index (Some ix) self)
        end
    | _ => (false, self)
    end.
Proof.
  unfold load_index, load_index_body, bind, lift, modify, read_index, read_json.
  destruct (fs !! index_path file_path) as [[ix|data| |]|]; try reflexivity.
  destruct (fs !! json_path file_path) as [[ix'|data| |]|]; try reflexivity.
  simpl. destruct (j_documents data) as [docs|]; [|reflexivity].
  simpl. destruct (j_metadata data) as [ms|]; reflexivity.
Qed.

(** C2, as the code has it. [load_index] compares no counts: whenever the
    blob decodes and the sidecar is a JSON object with the documents and
    the metadata, it returns success and installs the index of the blob
    and the two lists of the sidecar, whatever their lengths; it fails
    only when one of these is missing or unreadable. *)
Theorem load_index_succeeds_without_count_check fs file_path self :
  (forall ix data docs ms,
     fs !! index_path file_path = Some (FaissBlob ix) ->
     fs !! json_path file_path = Some (JsonFile data) ->
     j_documents data = Some docs -> j_metadata data = Some ms ->
     load_index fs file_path self
       = (true, mkBuilder (embedding_model self) (Some ix) docs ms)) /\
  (fst (load_index fs file_path self) = false ->
     ~ exists ix data docs ms,
         fs !! index_path file_path = Some (FaissBlob ix) /\
         fs !! json_path file_path = Some (JsonFile data) /\
         j_documents data = Some docs /\ j_metadata data = Some ms).
Proof.
  rewrite load_index_cases. split.
  - intros ix data docs ms -> -> -> ->. reflexivity.
  - intros Hf (ix & data & docs & ms & H1 & H2 & H3 & H4).
    rewrite H1, H2, H3, H4 in Hf. discriminate.
Qed.

Lemma load_index_succeeds_without_count_check_witness :
  load_index (snd (fst (save_index Sample.save_world (lit "idx") ∅ Sample.one_document)))
             (lit "idx") (init [])
    = (true, mkBuilder [] (index Sample.one_document) (documents Sample.one_document)
                       (document_metadata Sample.one_document)).
Proof.
  eapply (proj1 (load_index_succeeds_without_count_check _ (lit "idx") (init [])));
    reflexivity.
Defined.

(** C2, as worded, fails: a blob of two vectors next to a sidecar of one
    document is loaded with success, and the builder then holds two vectors
    for one document. *)
Lemma load_index_accepts_mismatch :
  fst (load_index Sample.mismatched_artifacts (lit "idx") (init [])) = true /\
  vector_count (snd (load_index Sample.mismatched_artifacts (lit "idx") (init []))) = 2%nat /\
  length (documents (snd (load_index Sample.mismatched_artifacts (lit "idx") (init [])))) = 1%nat.
Proof. repeat split. Qed.

(** C3, as the code has it. [save_index] never changes the builder. A
    [load_index] that fails on the blob leaves the builder as it was; one
    that fails later has already put the index of the blob in place, and
    the documents of the sidecar too when only the metadata are missing;
    the metadata list and the model name are as before in every failure. *)
Theorem persistence_failure_state sw fs file_path self :
  snd (save_index sw file_path fs self) = self /\
  (fst (load_index fs file_path self) = false ->
     (read_index fs (index_path file_path) = Raise OSError /\
      snd (load_index fs file_path self) = self) \/
     (exists ix, read_index fs (index_path file_path) = Ok ix /\
        (snd (load_index fs file_path self) = set_index (Some ix) self \/
         exists data docs,
           fs !! json_path file_path = Some (JsonFile data) /\
           j_documents data = Some docs /\ j_metadata data = None /\
           snd (load_index fs file_path self)
             = set_documents docs (set_index (Some ix) self)))).
Proof.
  split; [apply save_index_keeps_builder|].
  rewrite load_index_cases. unfold read_index.
  destruct (fs !! index_path file_path) as [[ix|data| |]|]; try (left; split; reflexivity).
  intros Hf. right. exists ix. split; [reflexivity|].
  destruct (fs !! json_path file_path) as [[ix'|data| |]|]; try (left; reflexivity).
  destruct (j_documents data) as [docs|] eqn:Hd; [|left; reflexivity].
  destruct (j_metadata data) as [ms|] eqn:Hm; [discriminate|].
  right. exists data, docs. repeat split; assumption.
Qed.

Lemma persistence_failure_state_witness :
  fst (load_index ∅ (lit "idx") Sample.one_document) = false /\
  ((read_index ∅ (index_path (lit "idx")) = Raise OSError /\
    snd (load_index ∅ (lit "idx") Sample.one_document) = Sample.one_document) \/
   (exists ix, read_index ∅ (index_path (lit "idx")) = Ok ix /\
      (snd (load_index ∅ (lit "idx") Sample.one_document)
         = set_index (Some ix) Sample.one_document \/
       exists data docs,
         (∅ : FileSystem) !! json_path (lit "idx") = Some (JsonFile data) /\
         j_documents data = Some docs /\ j_metadata data = None /\
         snd (load_index ∅ (lit "idx") Sample.one_document)
           = set_documents docs (set_index (Some ix) Sample.one_document)))).
Proof.
  split; [reflexivity|].
  apply (proj2 (persistence_failure_state Sample.save_world ∅ (lit "idx")
                  Sample.one_document)).
  reflexivity.
Defined.

(** C3, as worded, fails for [load_index]: with the blob readable and the
    sidecar missing it returns failure, and the builder that held one
    vector now holds the two of the blob. *)
Lemma load_index_failure_replaces_index :
  fst (load_index Sample.blob_only (lit "idx") Sample.one_document) = false /\
  snd (load_index Sample.blob_only (lit "idx") Sample.one_document)
    <> Sample.one_document.
Proof.
  split; [reflexivity|]. intros H.
  apply (f_equal vector_count) in H. vm_compute in H. discriminate.
Qed.

(** C8. When [save_index] returns success, which it does for a builder
    with an index when the directory can be made and both files are
    written, a [load_index] of the same path from the resulting files
    succeeds in any builder and installs the same index, the same documents
    and the same metadata, in order; so the status is the same. *)
Theorem save_load_round_trip sw file_path fs self :
  (index self <> None -> makedirs_ok sw = true ->
   index_write sw = Written -> json_write sw = Written ->
   fst (fst (save_index sw file_path fs self)) = true) /\
  (forall fs' self',
     save_index sw file_path fs self = (true, fs', self') ->
     self' = self /\
     forall self0,
       load_index fs' file_path self0
         = (true, mkBuilder (embedding_model self0) (index self)
                            (documents self) (document_metadata self)) /\
       get_index_status (snd (load_index fs' file_path self0)) = get_index_status self).
Proof.
  split.
  - intros Hix Hmk Hiw Hjw. unfold save_index.
    destruct (index self); [|congruence]. rewrite Hmk, Hiw, Hjw. reflexivity.
  - intros fs' self' Hsave. unfold save_index in Hsave.
    destruct (index self) as [ix|] eqn:Hix; [|discriminate].
    destruct (makedirs_ok sw); [|discriminate]. simpl in Hsave.
    destruct (index_write sw); simpl in Hsave; try discriminate.
    destruct (json_write sw); simpl in Hsave; try discriminate.
    injection Hsave as <- <-. split; [reflexivity|]. intros self0.
    assert (Hload : load_index
              (<[json_path file_path :=
                   JsonFile (mkSidecar (Some (documents self)) (Some (document_metadata self))
                                       (Some (saved_date sw)) (Some (embedding_model self)))]>
                 (<[index_path file_path := FaissBlob ix]> (makedirs (makedirs_made sw) fs)))
              file_path self0
            = (true, mkBuilder (embedding_model self0) (Some ix)
                               (documents self) (document_metadata self))).
    { rewrite load_index_cases.
      rewrite lookup_insert_ne by (apply not_eq_sym, index_json_paths_differ).
      rewrite !lookup_insert_eq. reflexivity. }
    rewrite Hload. split; [reflexivity|].
    unfold get_index_status. simpl. rewrite Hix. reflexivity.
Qed.

Lemma save_load_round_trip_witness :
  save_index Sample.save_world (lit "idx") ∅ Sample.one_document
    = (true, snd (fst (save_index Sample.save_world (lit "idx") ∅ Sample.one_document)),
       Sample.one_document) /\
  get_index_status
    (snd (load_index (snd (fst (save_index Sample.save_world (lit "idx") ∅
                                             Sample.one_document)))
                     (lit "idx") (init [])))
    = get_index_status Sample.one_document.
Proof.
  split; [reflexivity|].
  apply (proj2 (save_load_round_trip Sample.save_world (lit "idx") ∅ Sample.one_document)
           _ Sample.one_document eq_refl).
Defined.

(** *** The alignment invariant *)

Lemma aligned_init model : aligned (init model).
Proof. split; reflexivity. Qed.

Lemma add_document_aligned w path md self :
  one_vector_per_text w -> aligned self ->
  aligned (snd (add_document w path md self)).
Proof.
  intros Hw [Hdm Hmv].
  destruct (add_document_cases w path md self)
    as [[e He]|[(text & shape & dim & Hix & _ & _ & _ & Hbad)
               |(text & rows & dim & _ & Hg & Hok)]].
  - rewrite He. split; assumption.
  - rewrite Hbad. unfold aligned, vector_count in *. rewrite Hix in Hmv.
    split; [exact Hdm|exact Hmv].
  - rewrite Hok. simpl. apply (get_embeddings_length w) in Hg; [|exact Hw].
    unfold aligned, committed, vector_count, Faiss.ntotal in *. simpl.
    rewrite !length_app, length_imap.
    destruct (index self) as [ix|]; simpl in *; lia.
Qed.

(** Folder ingestion keeps whatever every single-file ingestion keeps. *)
Section FolderInvariant.

Variable fw : FolderWorld.
Variable P : RAGBuilder -> Prop.
Hypothesis add_keeps :
  forall path md self, P self -> P (snd (add_document (world_at fw path) path md self)).

Lemma ingest_file_keeps root file results self :
  P self -> P (snd (ingest_file fw root file results self)).
Proof.
  intros HP. unfold ingest_file, try_add_document.
  pose proof (add_keeps (os_path_join root file) None self HP) as H.
  destruct (add_document (world_at fw (os_path_join root file)) (os_path_join root file)
              None self) as [[r|e] self']; simpl in H.
  - destruct (print fw (os_path_join root file) (Added file)); [exact H|].
    destruct (print fw (os_path_join root file) (Failed file e)); exact H.
  - destruct (print fw (os_path_join root file) (Failed file e)); exact H.
Qed.

Lemma ingest_files_keeps exts root files : forall results self,
  P self -> P (snd (ingest_files fw exts root files results self)).
Proof.
  induction files as [|file rest IH]; intros results self HP; [exact HP|].
  simpl. destruct (extension_matches exts file); [|apply IH; exact HP].
  unfold bind.
  pose proof (ingest_file_keeps root file results self HP) as H.
  destruct (ingest_file fw root file results self) as [[r|e] self'] eqn:E.
  - apply IH. exact H.
  - exact H.
Qed.

Lemma ingest_walk_keeps exts dirs : forall results self,
  P self -> P (snd (ingest_walk fw exts dirs results self)).
Proof.
  induction dirs as [|[root files] rest IH]; intros results self HP; [exact HP|].
  simpl. unfold bind.
  pose proof (ingest_files_keeps exts root files results self HP) as H.
  destruct (ingest_files fw exts root files results self) as [[rs|e] self'].
  - apply IH. exact H.
  - exact H.
Qed.

Lemma add_documents_from_folder_keeps folder_path exts self :
  P self -> P (snd (add_documents_from_folder fw folder_path exts self)).
Proof. apply ingest_walk_keeps. Qed.

End FolderInvariant.

Lemma load_index_aligned fs file_path self :
  artifacts_agree fs file_path -> aligned self ->
  aligned (snd (load_index fs file_path self)).
Proof.
  intros Hagree Hal. rewrite load_index_cases.
  destruct (fs !! index_path file_path) as [[ix|data| |]|] eqn:Hix; try exact Hal.
  destruct (Hagree ix Hix) as (data & docs & ms & -> & -> & -> & Hd & Hm).
  split; simpl; unfold vector_count; simpl; lia.
Qed.

Lemma step_aligned self self' :
  step one_vector_per_text artifacts_agree self self' -> aligned self -> aligned self'.
Proof.
  intros Hstep Hal. destruct Hstep.
  - apply add_document_aligned; assumption.
  - apply add_documents_from_folder_keeps; [|exact Hal].
    intros path md s. apply add_document_aligned. auto.
  - split; reflexivity.
  - rewrite save_index_keeps_builder. exact Hal.
  - apply load_index_aligned; assumption.
  - exact Hal.
  - exact Hal.
Qed.

(** C6, as the code has it. From a new builder, every state reached
    through [add_document], [add_documents_from_folder], [clear_index],
    [save_index], [search], [get_index_status] and [load_index] has as
    many documents as metadata entries as vectors, provided the embedding
    service answers with one vector per text and [load_index] is given
    artifacts that agree in number. *)
Theorem alignment_invariant model self :
  reachable one_vector_per_text artifacts_agree model self -> aligned self.
Proof.
  induction 1 as [|self self' _ IH Hstep].
  - apply aligned_init.
  - eapply step_aligned; eassumption.
Qed.

Lemma sample_world_one_vector_per_text : one_vector_per_text Sample.world.
Proof.
  intros texts embeddings H. simpl in H. injection H as <-. apply length_map.
Qed.

Lemma alignment_invariant_witness :
  aligned (snd (add_document Sample.world (lit "a.txt") None (init []))).
Proof.
  apply (alignment_invariant []).
  apply (reachable_step _ _ [] (init [])).
  - apply reachable_init.
  - apply step_add_document. exact sample_world_one_vector_per_text.
Defined.

(** C6, as worded, fails: [load_index] of a blob of two vectors and a
    sidecar of one document takes a new builder to a state with two vectors
    and one document. *)
Lemma alignment_broken_by_load_index :
  ~ (forall self, reachable (fun _ => True) (fun _ _ => True) [] self -> aligned self).
Proof.
  intros H.
  assert (Hr : reachable (fun _ => True) (fun _ _ => True) []
                 (snd (load_index Sample.mismatched_artifacts (lit "idx") (init [])))).
  { apply (reachable_step _ _ [] (init [])); [apply reachable_init|].
    apply step_load_index. exact I. }
  apply H in Hr. destruct Hr as [_ Hmv]. vm_compute in Hmv. discriminate.
Qed.

(** *** The folder report *)










(** The filter folds every cased letter of the name: [a.É] passes for the
    extension [.é], and the Kelvin sign for [k]. *)
Example extension_matches_folds_letters :
  extension_matches [[46; 233]%N] [97; 46; 201]%N = true /\
  extension_matches [[46; 107]%N] [97; 46; 8490]%N = true.
Proof. split; vm_compute; reflexivity. Qed.

(** With the default extensions the Markdown file has no record, the PDF
    that cannot be read has an error record, and the text files, also the
    one in the sub-directory with its upper-case extension, are ingested. *)
Example folder_report_default :
  fst (add_documents_from_folder Sample.folder_world (lit "top") None (init []))
  = Ok [Success (mkAddResult (lit "top/a.txt") 1 1);
        Error (lit "top/c.pdf") ExtractionError;
        Success (mkAddResult (lit "top/sub/d.TXT") 1 2)].
Proof. vm_compute. reflexivity. Qed.


(** *** Search *)

(** The index answers with exactly [k] pairs per query, however few
    vectors it holds. *)
Lemma knn_length ix k q : length (Faiss.knn ix k q) = k.
Proof.
  unfold Faiss.knn. rewrite length_app, length_replicate, length_take. lia.
Qed.

(** Vectors at the same distance are answered in the order of their
    positions. *)
Example knn_ties_by_position :
  map snd (Faiss.knn (Faiss.mkIndex 1 [[1%Q]; [3%Q]; [1%Q]; [2%Q]]) 5 [2%Q])
  = [3; 0; 1; 2; -1].
Proof. reflexivity. Qed.

(** Every label of the answer is a position of a stored vector or [-1]. *)
Lemma knn_labels ix k q :
  Forall (fun p => -1 <= snd p < Z.of_nat (Faiss.ntotal ix)) (Faiss.knn ix k q).
Proof.
  unfold Faiss.knn. apply Forall_app. split.
  - apply Forall_take.
    assert (Hc : Forall (fun p : Q * Z => -1 <= snd p < Z.of_nat (Faiss.ntotal ix))
                        (Faiss.candidates ix q)).
    { apply Forall_forall. intros p Hp. unfold Faiss.candidates in Hp.
      apply elem_of_lookup_imap_1 in Hp as (i & v & -> & Hl).
      apply lookup_lt_Some in Hl. unfold Faiss.ntotal. simpl. lia. }
    unfold Faiss.sort_by_distance.
    induction Hc as [|p l Hp _ IH]; simpl; [constructor|].
    clear -Hp IH. induction IH as [|a l' Ha Hl' IH']; simpl.
    + constructor; [exact Hp|constructor].
    + destruct (Qle_bool (fst p) (fst a)).
      * constructor; [exact Hp|]. constructor; assumption.
      * constructor; [exact Ha|exact IH'].
  - apply Forall_replicate. simpl. lia.
Qed.

Lemma py_getitem_in_range {A} (l : list A) i :
  -1 <= i < len l -> l <> [] -> exists x, py_getitem l i = Ok x.
Proof.
  intros Hi Hne. unfold py_getitem.
  assert (Hlen : 0 < len l) by (destruct l; [congruence|unfold len; simpl; lia]).
  set (j := if i <? 0 then len l + i else i).
  assert (Hj : 0 <= j < len l).
  { subst j. destruct (i <? 0) eqn:E; [apply Z.ltb_lt in E|apply Z.ltb_ge in E]; lia. }
  replace ((0 <=? j) && (j <? len l)) with true
    by (symmetry; apply andb_true_iff; split; [apply Z.leb_le|apply Z.ltb_lt]; lia).
  destruct (lookup_lt_is_Some_2 l (Z.to_nat j)) as [x Hx]; [unfold len in Hj; lia|].
  rewrite Hx. eauto.
Qed.

Lemma collect_hits_length self row : forall results,
  documents self <> [] ->
  length (documents self) = length (document_metadata self) ->
  Forall (fun p => -1 <= snd p < len (documents self)) row ->
  exists hits, collect_hits self row results = Ok hits /\
               length hits = (length results + length row)%nat.
Proof.
  intros results Hne Hlen Hrow. revert results.
  induction Hrow as [|[distance idx] row Hp _ IH]; intros results.
  - exists results. simpl. split; [reflexivity|lia].
  - simpl in Hp. simpl collect_hits.
    replace (idx <? len (documents self)) with true by (symmetry; apply Z.ltb_lt; lia).
    destruct (py_getitem_in_range (documents self) idx Hp Hne) as [doc ->].
    destruct (py_getitem_in_range (document_metadata self) idx) as [meta ->].
    { unfold len in *. rewrite <- Hlen. exact Hp. }
    { intros E. apply Hne. destruct (documents self); [reflexivity|].
      rewrite E in Hlen. discriminate. }
    simpl. destruct (IH (results ++ [mkHit doc meta distance])) as (hits & -> & Hl).
    exists hits. split; [reflexivity|]. rewrite Hl, length_app. simpl. lia.
Qed.

(** On an aligned builder that holds documents, a search that reaches the
    index returns exactly [k] hits, also when [k] exceeds the number of
    documents. *)
Lemma search_returns_k_hits w self query k ix v vs :
  aligned self -> index self = Some ix -> documents self <> [] ->
  get_embeddings w [query] = Ok (Array2 (Faiss.d ix) (v :: vs)) -> 0 < k ->
  exists hits, search w self query k = Ok hits /\ len hits = k.
Proof.
  intros [Hdm Hmv] Hix Hne Hemb Hk. unfold search. rewrite Hix.
  replace (len (documents self) =? 0) with false
    by (symmetry; apply Z.eqb_neq; destruct (documents self); [congruence|unfold len; simpl; lia]).
  rewrite Hemb. simpl. rewrite Nat.eqb_refl. simpl.
  replace (k <=? 0) with false by (symmetry; apply Z.leb_gt; lia).
  unfold mbind, result_bind, py_getitem. simpl.
  destruct (collect_hits_length self (Faiss.knn ix (Z.to_nat k) v) []) as (hits & Hc & Hl);
    [exact Hne|exact Hdm| |].
  - eapply Forall_impl; [apply knn_labels|]. intros p Hp. simpl in Hp.
    unfold vector_count in Hmv. rewrite Hix in Hmv. unfold len. lia.
  - exists hits. split; [exact Hc|]. unfold len. rewrite Hl, knn_length. simpl. lia.
Qed.

(** C1 on a builder with one document and [k = 5]. The index pads its
    answer with the label [-1]; the test [idx < len(self.documents)] lets
    [-1] through, and [self.documents[-1]] is the last document. The
    result has five entries for a corpus of one: the real hit and four
    copies of the last document with the largest float as score. *)
Theorem search_pads_beyond_corpus :
  length (documents Sample.one_document) = 1%nat /\
  search Sample.world Sample.one_document (lit "q") 5
  = Ok [mkHit (lit "the only chunk") {[lit "file_path" := lit "a.txt"]} 1%Q;
        mkHit (lit "the only chunk") {[lit "file_path" := lit "a.txt"]} Faiss.FLT_MAX;
        mkHit (lit "the only chunk") {[lit "file_path" := lit "a.txt"]} Faiss.FLT_MAX;
        mkHit (lit "the only chunk") {[lit "file_path" := lit "a.txt"]} Faiss.FLT_MAX;
        mkHit (lit "the only chunk") {[lit "file_path" := lit "a.txt"]} Faiss.FLT_MAX].
Proof. split; reflexivity. Qed.

End RagFacts.

(** ** Further properties of the chunker *)

Module ChunkerMore.

Import Chunker Spec ChunkerSpec ChunkerFacts.

(** *** The fallback split *)

Lemma re_split_after_concat text : forall cur,
  concat (re_split_after text cur) = cur ++ text.
Proof.
  induction text as [|c rest IH]; intros cur; simpl.
  - reflexivity.
  - destruct (is_terminal c); simpl; rewrite IH; rewrite <- ?app_assoc; reflexivity.
Qed.

Lemma re_split_after_pieces text : forall cur,
  Forall (fun x => is_terminal x = false) cur ->
  exists pieces last,
    re_split_after text cur = pieces ++ [last] /\
    Forall cut_piece pieces /\
    Forall (fun x => is_terminal x = false) last.
Proof.
  induction text as [|c rest IH]; intros cur Hcur; simpl.
  - exists [], cur. repeat split; [constructor|exact Hcur].
  - destruct (is_terminal c) eqn:Hc.
    + destruct (IH []) as (pieces & last & -> & Hp & Hl); [constructor|].
      exists ((cur ++ [c]) :: pieces), last. repeat split; [|exact Hl].
      constructor; [|exact Hp]. exists cur, c. tauto.
    + apply IH. apply Forall_app. split; [exact Hcur|].
      constructor; [exact Hc|constructor].
Qed.

(** X1. The fallback split loses nothing and cuts only after a
    sentence-final mark: the pieces put together are the text, every piece
    but the last ends with its only mark, and the last has none. *)
Theorem re_split_lossless text :
  concat (re_split text) = text /\
  exists pieces last,
    re_split text = pieces ++ [last] /\
    Forall cut_piece pieces /\
    Forall (fun x => is_terminal x = false) last.
Proof.
  split.
  - unfold re_split. rewrite re_split_after_concat. reflexivity.
  - apply re_split_after_pieces. constructor.
Qed.

(** *** Chunks and sentences *)

Lemma fits_groups_nil chunk_size (groups : list (list str)) :
  Forall (fits chunk_size) groups -> concat groups = [] -> groups = [].
Proof.
  intros Hfit Hc. destruct groups as [|g groups]; [reflexivity|].
  inversion Hfit as [|? ? [Hne _] _]; subst.
  simpl in Hc. apply app_eq_nil in Hc as [Hg _]. congruence.
Qed.

Lemma terminal_not_space c : isspace c = true -> is_terminal c = false.
Proof.
  intros Hs. unfold is_terminal.
  repeat match goal with
  | |- context [(c =? ?n)%N] =>
      destruct (N.eqb_spec c n) as [->|_]; [discriminate Hs|]
  end.
  reflexivity.
Qed.

Lemma lstrip_blank text : Forall (fun c => isspace c = true) text -> lstrip text = [].
Proof. induction 1 as [|c text Hc _ IH]; simpl; [reflexivity|]. rewrite Hc. exact IH. Qed.

Lemma re_split_after_blank text : forall cur,
  Forall (fun c => isspace c = true) text ->
  re_split_after text cur = [cur ++ text].
Proof.
  induction text as [|c rest IH]; intros cur Hall; simpl.
  - rewrite app_nil_r. reflexivity.
  - inversion Hall as [|? ? Hc Hrest]; subst.
    rewrite (terminal_not_space c Hc), IH by exact Hrest.
    rewrite <- app_assoc. reflexivity.
Qed.

(** X2. [split_text] returns no chunk exactly when there is no sentence to
    pack; so a text of white space only, the empty text included, in which
    the segmenter finds no sentence, gives no chunk, whatever the size. *)
Theorem split_text_empty nlp text chunk_size :
  (split_text nlp text chunk_size = [] <-> packed_sentences nlp text = []) /\
  (stripped_nonempty (nlp text) = [] ->
   Forall (fun c => isspace c = true) text ->
   split_text nlp text chunk_size = []).
Proof.
  assert (Hiff : split_text nlp text chunk_size = [] <-> packed_sentences nlp text = []).
  { destruct (split_text_groups nlp text chunk_size) as (groups & Hs & Hc & Hfit).
    rewrite Hs, <- Hc. split.
    - intros E. destruct groups; [reflexivity|discriminate].
    - intros E. rewrite (fits_groups_nil chunk_size groups Hfit E). reflexivity. }
  split; [exact Hiff|].
  intros Hnlp Hblank. apply Hiff. unfold packed_sentences. rewrite Hnlp.
  unfold re_split. rewrite re_split_after_blank by exact Hblank.
  unfold stripped_nonempty. simpl. unfold strip.
  rewrite (lstrip_blank text Hblank). reflexivity.
Qed.

Lemma split_text_empty_witness :
  split_text (fun _ => [lit "  "]) (lit " ") 500 = [].
Proof.
  apply (proj2 (split_text_empty (fun _ => [lit "  "]) (lit " ") 500)).
  - reflexivity.
  - repeat constructor.
Defined.

Lemma glue_app g1 g2 : glue (g1 ++ g2) = glue g1 ++ glue g2.
Proof. unfold glue. rewrite map_app, concat_app. reflexivity. Qed.

Lemma glue_chunks (groups : list (list str)) :
  Forall (fun g => g <> [] /\ Forall trimmed g) groups ->
  glue (map chunk_of groups) = glue (concat groups).
Proof.
  induction 1 as [|g groups [Hne Htr] _ IH]; [reflexivity|].
  simpl map. simpl concat. rewrite glue_cons, glue_app, IH.
  destruct (glue_chunk g Hne Htr) as [-> _]. rewrite <- app_assoc. reflexivity.
Qed.

(** X3. Chunking loses no sentence and keeps their order: the chunks, each
    followed by a space and put together, are the sentences, each followed
    by a space and put together. *)
Theorem split_text_preserves_sentences nlp text chunk_size :
  glue (split_text nlp text chunk_size) = glue (packed_sentences nlp text).
Proof.
  destruct (split_text_groups nlp text chunk_size) as (groups & Hs & Hc & Hfit).
  rewrite Hs, <- Hc. apply glue_chunks.
  pose proof (packed_sentences_trimmed nlp text) as Htr. rewrite <- Hc in Htr.
  apply Forall_forall. intros g Hg. split.
  - rewrite Forall_forall in Hfit. apply (Hfit g Hg).
  - eapply concat_group_Forall; eassumption.
Qed.

(** X4. When no sentence is longer than the size, no chunk is. *)
Theorem split_text_hard_bound nlp text chunk_size :
  (forall s, s ∈ packed_sentences nlp text -> len s <= chunk_size) ->
  forall c, c ∈ split_text nlp text chunk_size -> len c <= chunk_size.
Proof.
  intros Hall c Hc.
  destruct (split_text_chunk nlp text chunk_size c Hc) as (_ & _ & [Hs|[Hle _]]).
  - apply Hall. exact Hs.
  - exact Hle.
Qed.

Lemma split_text_hard_bound_witness :
  len (lit "A. B.") <= 6.
Proof.
  apply (split_text_hard_bound Sample.three_sentences [] 6).
  - intros s Hs.
    change (packed_sentences Sample.three_sentences [])
      with [lit "A."; lit "B."; lit "CCCC."] in Hs.
    repeat (apply elem_of_cons in Hs as [->|Hs]; [vm_compute; discriminate|]).
    inversion Hs.
  - vm_compute. constructor.
Defined.

(** *** Greedy packing *)

Lemma linked_snoc {A} (R : A -> A -> Prop) l a b :
  linked R (l ++ [a]) -> R a b -> linked R ((l ++ [a]) ++ [b]).
Proof.
  intros Hl Hab. induction l as [|x l IH]; simpl in *; [tauto|].
  destruct l as [|y l']; simpl in *; [tauto|].
  destruct Hl as [Hxy Hl]. split; [exact Hxy|]. apply IH. exact Hl.
Qed.

Lemma linked_replace_last {A} (R : A -> A -> Prop) l a a' :
  linked R (l ++ [a]) -> (forall x, R x a -> R x a') -> linked R (l ++ [a']).
Proof.
  intros Hl Himp. induction l as [|x l IH]; simpl in *; [tauto|].
  destruct l as [|y l']; simpl in *.
  - destruct Hl as [Hxa _]. split; [apply Himp; exact Hxa|exact I].
  - destruct Hl as [Hxy Hl]. split; [exact Hxy|]. apply IH. exact Hl.
Qed.

(** The packing loop closes a run only when the next sentence does not
    fit after it. *)
Lemma pack_groups_linked chunk_size sentences : forall done g,
  Forall trimmed sentences -> Forall trimmed g ->
  (g = [] -> done = []) ->
  linked (breaks chunk_size) (done ++ pending g) ->
  exists done' g',
    pack chunk_size sentences (map chunk_of done, glue g) = (map chunk_of done', glue g') /\
    concat done' ++ g' = concat done ++ g ++ sentences /\
    Forall trimmed g' /\ (g' = [] -> done' = []) /\
    linked (breaks chunk_size) (done' ++ pending g').
Proof.
  induction sentences as [|s rest IH]; intros done g Hss Hg Hdone Hlink.
  - exists done, g. simpl. rewrite app_nil_r. tauto.
  - inversion Hss as [|? ? Hs Hrest]; subst.
    unfold pack. simpl fold_left. fold (pack chunk_size rest).
    unfold pack_step at 1.
    destruct (len (glue g) + len s <=? chunk_size) eqn:Hle.
    + rewrite <- glue_snoc.
      assert (Hg1 : Forall trimmed (g ++ [s])).
      { apply Forall_app; split; [exact Hg|]. constructor; [exact Hs|constructor]. }
      assert (Hd1 : g ++ [s] = [] -> done = []).
      { intros E. destruct g; discriminate. }
      assert (Hl1 : linked (breaks chunk_size) (done ++ pending (g ++ [s]))).
      { destruct g as [|a g0].
        - assert (done = []) as -> by (apply Hdone; reflexivity). simpl. exact I.
        - simpl pending in *. eapply linked_replace_last; [exact Hlink|].
          intros x Hx. exact Hx. }
      destruct (IH done (g ++ [s]) Hrest Hg1 Hd1 Hl1) as (done' & g' & Hp & Hc & Hg' & Hd' & Hl').
      exists done', g'. repeat split; try assumption.
      rewrite Hc, <- !app_assoc. reflexivity.
    + apply Z.leb_gt in Hle. rewrite (truthy_glue g Hg). rewrite <- glue_single.
      assert (Hg1 : Forall trimmed [s]) by (constructor; [exact Hs|constructor]).
      destruct g as [|a g0].
      * simpl truthy. cbv iota.
        assert (done = []) as -> by (apply Hdone; reflexivity).
        assert (Hd1 : [s] = [] -> @nil (list str) = []) by discriminate.
        assert (Hl1 : linked (breaks chunk_size) ([] ++ pending [s])) by exact I.
        destruct (IH [] [s] Hrest Hg1 Hd1 Hl1) as (done' & g' & Hp & Hc & Hg' & Hd' & Hl').
        exists done', g'. repeat split; assumption.
      * simpl truthy. cbv iota.
        replace (map chunk_of done ++ [strip (glue (a :: g0))])
          with (map chunk_of (done ++ [a :: g0]))
          by (rewrite map_app; reflexivity).
        assert (Hd1 : [s] = [] -> done ++ [a :: g0] = []) by discriminate.
        assert (Hl1 : linked (breaks chunk_size) ((done ++ [a :: g0]) ++ pending [s])).
        { simpl pending in *. apply linked_snoc; [exact Hlink|]. simpl. lia. }
        destruct (IH (done ++ [a :: g0]) [s] Hrest Hg1 Hd1 Hl1)
          as (done' & g' & Hp & Hc & Hg' & Hd' & Hl').
        exists done', g'. repeat split; try assumption.
        rewrite Hc, concat_app. simpl. rewrite app_nil_r, <- !app_assoc. reflexivity.
Qed.

Lemma flush_groups_linked chunk_size sentences :
  Forall trimmed sentences ->
  exists groups cur,
    flush (pack chunk_size sentences ([], [])) = (map chunk_of groups, cur) /\
    concat groups = sentences /\ linked (breaks chunk_size) groups.
Proof.
  intros Hss.
  assert (Hnil : Forall trimmed []) by constructor.
  destruct (pack_groups_linked chunk_size sentences [] [] Hss Hnil (fun _ => eq_refl) I)
    as (done' & g' & Hp & Hc & Hg' & Hd' & Hl').
  change (map chunk_of [], glue []) with (@nil str, @nil char) in Hp.
  rewrite Hp. unfold flush. rewrite (truthy_glue g' Hg').
  simpl in Hc. exists (done' ++ pending g'), (glue g').
  destruct g' as [|a g0]; simpl truthy; cbv iota; simpl pending in *.
  - rewrite app_nil_r in *. tauto.
  - rewrite map_app, concat_app. simpl. rewrite app_nil_r. tauto.
Qed.

(** X5. The packing is greedy: the chunks are consecutive runs of the
    sentences, and a run is closed only when the first sentence of the
    next run did not pass the test of the loop after it, that is when the
    closed chunk, a space and that sentence together exceed the size. *)
Theorem split_text_greedy nlp text chunk_size :
  exists groups,
    split_text nlp text chunk_size = map chunk_of groups /\
    concat groups = packed_sentences nlp text /\
    linked (breaks chunk_size) groups.
Proof.
  unfold split_text, packed_sentences.
  destruct (stripped_nonempty (nlp text)) as [|s ss] eqn:E.
  - change (flush (pack chunk_size [] ([], []))) with (@nil str, @nil char).
    cbv iota beta. simpl truthy. cbv iota.
    destruct (flush_groups_linked chunk_size (stripped_nonempty (re_split text)))
      as (groups & cur & Hf & Hc & Hl); [apply stripped_nonempty_trimmed|].
    exists groups. split; [exact (f_equal fst Hf)|tauto].
  - destruct (flush_groups_linked chunk_size (s :: ss)) as (groups & cur & Hf & Hc & Hl).
    { rewrite <- E. apply stripped_nonempty_trimmed. }
    rewrite Hf. exists groups.
    destruct groups as [|g groups]; [discriminate|]. simpl. tauto.
Qed.

End ChunkerMore.

(** ** Further properties of the builder *)

Module RagMore.

Import Np Chunker Rag Spec RagSpec RagFacts.
Local Open Scope rag_scope.

(** *** Ingestion *)

Lemma get_embeddings_not_empty w texts cols rows :
  get_embeddings w texts = Ok (Array2 cols rows) -> rows <> [].
Proof.
  intros H. apply get_embeddings_rows in H as (emb & _ & -> & Hne).
  destruct emb; [congruence|discriminate].
Qed.

(** For no text, a service that keeps to one vector per text answers with
    nothing, which makes the empty array of one dimension. *)
Lemma get_embeddings_no_text w a :
  one_vector_per_text w -> get_embeddings w [] = Ok a -> a = Array1Empty.
Proof.
  intros Hw. unfold get_embeddings.
  destruct (embedding_service w []) as [emb|] eqn:Hs; [|discriminate].
  apply Hw in Hs. destruct emb; [|discriminate].
  intros H. injection H as <-. reflexivity.
Qed.

(** X6. A file in which the chunker finds no chunk cannot be ingested:
    when the embedding service keeps to one vector per text,
    [add_document] raises and leaves the builder as it was. *)
Theorem add_document_without_chunks w path md self text :
  one_vector_per_text w ->
  extract_text_from_file w path = Ok text ->
  split_text (nlp w) text DEFAULT_CHUNK_SIZE = [] ->
  exists e, add_document w path md self = (Raise e, self).
Proof.
  intros Hw Ht Hc.
  destruct (add_document_cases w path md self)
    as [He|[(text' & shape & dim & _ & Ht' & Hg & _)|(text' & rows & dim & Ht' & Hg & _)]];
    [exact He| |];
    exfalso; rewrite Ht in Ht'; injection Ht' as <-; rewrite Hc in Hg;
    apply (get_embeddings_no_text w _ Hw) in Hg; discriminate.
Qed.

Lemma add_document_without_chunks_witness :
  exists e,
    add_document
      (mkWorld (fun _ => None) (fun _ => None) (fun _ => Some []) (fun _ => [])
               (fun texts => Some (map (fun _ => Arr [Num 1%Q]) texts)) (fun _ => []))
      (lit "empty.txt") None Sample.one_document
    = (Raise e, Sample.one_document).
Proof.
  apply (add_document_without_chunks _ (lit "empty.txt") None Sample.one_document []).
  - intros texts embeddings H. simpl in H. injection H as <-. apply length_map.
  - reflexivity.
  - reflexivity.
Defined.

Lemma extends_refl self : extends self self.
Proof.
  repeat split; try reflexivity.
  destruct (index self) as [ix|]; [|exact I]. exists ix. repeat split; reflexivity.
Qed.

Lemma extends_trans s1 s2 s3 : extends s1 s2 -> extends s2 s3 -> extends s1 s3.
Proof.
  intros (Hm1 & Hd1 & Hmd1 & Hi1) (Hm2 & Hd2 & Hmd2 & Hi2).
  split; [congruence|]. split; [etransitivity; eassumption|].
  split; [etransitivity; eassumption|].
  destruct (index s1) as [ix1|]; [|exact I].
  destruct Hi1 as (ix2 & Hix2 & Hdim2 & Hxb2). rewrite Hix2 in Hi2.
  destruct Hi2 as (ix3 & Hix3 & Hdim3 & Hxb3).
  exists ix3. split; [exact Hix3|]. split; [congruence|etransitivity; eassumption].
Qed.

Lemma add_document_extends w path md self :
  extends self (snd (add_document w path md self)).
Proof.
  destruct (add_document_cases w path md self)
    as [[e He]|[(text & shape & dim & Hix & _ & _ & _ & Hbad)
               |(text & rows & dim & _ & _ & Hok)]].
  - rewrite He. apply extends_refl.
  - rewrite Hbad. unfold extends. simpl. rewrite Hix. repeat split; reflexivity.
  - rewrite Hok. simpl. unfold extends, committed. simpl.
    split; [reflexivity|]. split; [apply prefix_app_r; reflexivity|].
    split; [apply prefix_app_r; reflexivity|].
    destruct (index self) as [ix|]; [|exact I].
    eexists. split; [reflexivity|]. split; [reflexivity|].
    simpl. apply prefix_app_r. reflexivity.
Qed.

(** X7. Ingestion only appends. After [add_document] or
    [add_documents_from_folder], whatever their outcome, the documents, the
    metadata entries and the vectors held before are still there at the
    same positions, and the width of an existing index is the same. *)
Theorem ingestion_appends w path md fw folder_path file_extensions self :
  extends self (snd (add_document w path md self)) /\
  extends self (snd (add_documents_from_folder fw folder_path file_extensions self)).
Proof.
  split; [apply add_document_extends|].
  apply (add_documents_from_folder_keeps fw (extends self)); [|apply extends_refl].
  intros p m s Hs. eapply extends_trans; [exact Hs|apply add_document_extends].
Qed.

(** *** Status *)

Lemma count_file_lookup (acc : gmap str Z) (meta : Meta) (p : str) :
  count_file acc meta !! p =
  if decide (p = file_path_of meta)
  then Some (default 0 (acc !! p) + 1)
  else acc !! p.
Proof.
  unfold count_file. fold (file_path_of meta).
  destruct (decide (p = file_path_of meta)) as [->|Hne].
  - rewrite lookup_insert_eq.
    destruct (acc !! file_path_of meta) eqn:E.
    + rewrite E. reflexivity.
    + rewrite lookup_insert_eq. reflexivity.
  - rewrite lookup_insert_ne by congruence.
    destruct (acc !! file_path_of meta) eqn:E; [reflexivity|].
    rewrite lookup_insert_ne by congruence. reflexivity.
Qed.

Lemma occurrences_cons p q paths :
  occurrences p (q :: paths) = (if decide (p = q) then 1 else 0) + occurrences p paths.
Proof.
  unfold occurrences, len. simpl.
  destruct (decide (p = q)) as [->|Hne].
  - rewrite bool_decide_eq_true_2 by reflexivity. simpl. lia.
  - rewrite bool_decide_eq_false_2 by congruence. lia.
Qed.

Lemma occurrences_nonneg p paths : 0 <= occurrences p paths.
Proof. unfold occurrences, len. lia. Qed.

Lemma occurrences_absent p paths : p ∉ paths -> occurrences p paths = 0.
Proof.
  induction paths as [|q paths IH]; intros Hn; [reflexivity|].
  rewrite occurrences_cons. apply not_elem_of_cons in Hn as [Hne Hn].
  rewrite decide_False by exact Hne. rewrite IH by exact Hn. reflexivity.
Qed.

(** The counting loop: a path that occurs gets its earlier count plus its
    number of occurrences, a path that does not occur keeps its entry. *)
Lemma fold_count_file_lookup metas : forall (acc : gmap str Z) p,
  fold_left count_file metas acc !! p =
  if decide (p ∈ map file_path_of metas)
  then Some (default 0 (acc !! p) + occurrences p (map file_path_of metas))
  else acc !! p.
Proof.
  induction metas as [|m metas IH]; intros acc p.
  - cbn [fold_left map]. destruct (decide (p ∈ [])) as [H|_]; [inversion H|reflexivity].
  - cbn [fold_left map]. rewrite IH, count_file_lookup, occurrences_cons.
    destruct (decide (p ∈ map file_path_of metas)) as [Hin|Hnin];
      destruct (decide (p = file_path_of m)) as [Heq|Hne];
      destruct (decide (p ∈ file_path_of m :: map file_path_of metas)) as [Hin'|Hnin'];
      try (exfalso; rewrite elem_of_cons in *; tauto).
    + simpl. f_equal. lia.
    + simpl. reflexivity.
    + rewrite (occurrences_absent _ _ Hnin). simpl. f_equal.
    + reflexivity.
Qed.

Lemma file_stats_size metas :
  size (fold_left count_file metas (∅ : gmap str Z))
  = length (remove_dups (map file_path_of metas)).
Proof.
  rewrite <- size_dom.
  rewrite <- (size_list_to_set (C := gset str) (remove_dups (map file_path_of metas)))
    by apply NoDup_remove_dups.
  f_equal. apply set_eq. intros p.
  rewrite elem_of_dom, elem_of_list_to_set, elem_of_remove_dups, fold_count_file_lookup.
  destruct (decide (p ∈ map file_path_of metas)) as [Hin|Hnin].
  - split; [intros _; exact Hin|intros _; eauto].
  - rewrite lookup_empty. split; [intros [x Hx]; discriminate|tauto].
Qed.

(** X8. The status of a builder with an index: it is the initialized one;
    [document_count] is the number of documents and [dimension] the width
    of the index; [file_stats] maps every file path that occurs in the
    metadata (the unknown-file name standing for an entry without path) to
    the number of entries with that path and has no other key; and
    [file_count] is the number of distinct paths. *)
Theorem get_index_status_counts self ix :
  index self = Some ix ->
  exists stats,
    get_index_status self
      = mkStatus STATUS_INITIALIZED (len (documents self))
                 (Z.of_nat (length (remove_dups (file_paths self))))
                 (Z.of_nat (Faiss.d ix)) (Some stats) /\
    forall p, stats !! p =
              if decide (p ∈ file_paths self)
              then Some (occurrences p (file_paths self))
              else None.
Proof.
  intros Hix. exists (fold_left count_file (document_metadata self) ∅). split.
  - unfold get_index_status. rewrite Hix, file_stats_size. reflexivity.
  - intros p. rewrite fold_count_file_lookup. unfold file_paths.
    destruct (decide (p ∈ map file_path_of (document_metadata self))).
    + rewrite lookup_empty. simpl. f_equal.
    + apply lookup_empty.
Qed.

Lemma get_index_status_counts_witness :
  exists stats,
    get_index_status Sample.one_document
      = mkStatus STATUS_INITIALIZED 1 1 1 (Some stats) /\
    forall p, stats !! p =
              if decide (p ∈ file_paths Sample.one_document)
              then Some (occurrences p (file_paths Sample.one_document))
              else None.
Proof.
  exact (get_index_status_counts Sample.one_document (Faiss.mkIndex 1 [[0%Q]]) eq_refl).
Defined.

(** *** Ingesting a file again *)

Lemma file_path_of_chunk_metadata (path added_date : str) (md : option Meta) :
  file_path_of (chunk_metadata path added_date md)
  = default path (default ∅ md !! lit "file_path").
Proof.
  unfold file_path_of, chunk_metadata.
  destruct (default ∅ md !! lit "file_path") as [v|] eqn:E.
  - erewrite lookup_union_Some_l by exact E. reflexivity.
  - rewrite lookup_union_r by exact E. rewrite lookup_insert_eq. reflexivity.
Qed.

Lemma committed_file_paths w path md self chunks rows dim :
  file_paths (committed w path md self chunks rows dim)
  = file_paths self
    ++ map (fun _ => default path (default ∅ md !! lit "file_path")) chunks.
Proof.
  unfold file_paths, committed. simpl. rewrite map_app. f_equal.
  generalize (now w). clear. induction chunks as [|c chunks IH]; intros clock.
  - reflexivity.
  - simpl. rewrite file_path_of_chunk_metadata. f_equal. apply (IH (clock ∘ S)).
Qed.

Lemma remove_dups_length_app_twice (l l' : list str) :
  length (remove_dups ((l ++ l') ++ l')) = length (remove_dups (l ++ l')).
Proof.
  rewrite <- !(size_list_to_set (C := gset str)) by apply NoDup_remove_dups.
  f_equal. apply set_eq. intros p.
  rewrite !elem_of_list_to_set, !elem_of_remove_dups, !elem_of_app. tauto.
Qed.

Lemma file_count_initialized self ix :
  index self = Some ix ->
  file_count (get_index_status self)
  = Z.of_nat (length (remove_dups (file_paths self))).
Proof.
  intros Hix. unfold get_index_status. rewrite Hix. cbn [file_count].
  rewrite file_stats_size. reflexivity.
Qed.

(** X9. Nothing is deduplicated: when [add_document] has succeeded for a
    file, ingesting the same file again in the same world succeeds too and
    appends the same chunks once more; the total grows by the chunk count
    while the number of files in the status stays the same. *)
Theorem add_document_twice w path md self r s1 :
  add_document w path md self = (Ok r, s1) ->
  exists chunks s2,
    documents s1 = documents self ++ chunks /\
    add_document w path md s1
      = (Ok (mkAddResult path (chunk_count r) (total_chunks r + chunk_count r)), s2) /\
    documents s2 = documents self ++ chunks ++ chunks /\
    file_count (get_index_status s2) = file_count (get_index_status s1).
Proof.
  intros H1.
  destruct (add_document_cases w path md self)
    as [[e He]|[(text & shape & dim & _ & _ & _ & _ & Hbad)
               |(text & rows & dim & Ht & Hg & Hok)]]; [congruence|congruence|].
  rewrite H1 in Hok. injection Hok as -> ->.
  set (chunks := split_text (nlp w) text DEFAULT_CHUNK_SIZE) in *.
  exists chunks. eexists. split; [reflexivity|].
  destruct (add_document_cases w path md (committed w path md self chunks rows dim))
    as [[e He]|[(text' & shape & dim' & Hnone & _)
               |(text' & rows' & dim' & Ht' & Hg' & Hok')]];
    [|discriminate Hnone|].
  - exfalso. revert He. unfold add_document, bind, lift, get, ret, modify.
    rewrite Ht. fold chunks. rewrite Hg. unfold index_add, committed. simpl.
    destruct (index self) as [ix|] eqn:Hix0.
    + assert (Hd : Nat.eqb dim (Faiss.d ix) = true).
      { revert H1. unfold add_document, bind, lift, get, ret, modify.
        rewrite Ht. fold chunks. rewrite Hg, Hix0. unfold index_add. rewrite Hix0.
        simpl. destruct (Nat.eqb dim (Faiss.d ix)); [reflexivity|discriminate]. }
      rewrite Hd. discriminate.
    + rewrite Nat.eqb_refl. discriminate.
  - rewrite Ht in Ht'. injection Ht' as <-. fold chunks in Hg', Hok'.
    rewrite Hg in Hg'. injection Hg' as <- <-.
    split.
    + rewrite Hok'. f_equal. f_equal. simpl. rewrite !ChunkerFacts.len_app. reflexivity.
    + split; [simpl; rewrite <- app_assoc; reflexivity|].
      erewrite !file_count_initialized by (unfold committed; simpl; reflexivity).
      rewrite !committed_file_paths. f_equal. apply remove_dups_length_app_twice.
Qed.

Lemma add_document_twice_witness :
  exists chunks s2,
    documents (snd (add_document Sample.world (lit "a.txt") None (init [])))
      = documents (init []) ++ chunks /\
    add_document Sample.world (lit "a.txt") None
                 (snd (add_document Sample.world (lit "a.txt") None (init [])))
      = (Ok (mkAddResult (lit "a.txt") 1 (1 + 1)), s2) /\
    documents s2 = documents (init []) ++ chunks ++ chunks /\
    file_count (get_index_status s2)
      = file_count (get_index_status
                      (snd (add_document Sample.world (lit "a.txt") None (init [])))).
Proof.
  apply (add_document_twice Sample.world (lit "a.txt") None (init [])
           (mkAddResult (lit "a.txt") 1 1)).
  reflexivity.
Defined.

(** *** Building an index from texts *)

(** The outcomes of [build_index]. *)
Lemma build_index_cases w docs metadata self :
  (exists e, build_index w docs metadata self = (Raise e, self)) \/
  (exists shape dim,
     docs <> [] /\ get_embeddings w docs = Ok (ArrayN shape) /\
     shape1 (ArrayN shape) = Ok dim /\
     build_index w docs metadata self
       = (Raise ValueError, set_index (Some (Faiss.new dim)) self)) \/
  (exists cols rows,
     docs <> [] /\ get_embeddings w docs = Ok (Array2 cols rows) /\
     build_index w docs metadata self =
       (Ok tt,
        mkBuilder (embedding_model self) (Some (Faiss.mkIndex cols rows)) docs
                  (match metadata with
                   | Some (m :: ms) => m :: ms
                   | _ => map (fun _ => ∅) docs
                   end))).
Proof.
  unfold build_index. destruct docs as [|doc docs]; [left; eexists; reflexivity|].
  simpl truthy. simpl negb. cbv iota. unfold bind, lift, modify.
  destruct (get_embeddings w (doc :: docs)) as [[|cols rows|shape]|e] eqn:Hemb;
    [left; eexists; reflexivity| | |left; eexists; reflexivity].
  - right; right. exists cols, rows. split; [discriminate|]. split; [reflexivity|].
    simpl. unfold index_add. simpl. rewrite Nat.eqb_refl. reflexivity.
  - destruct (shape1 (ArrayN shape)) as [dim|e] eqn:Hs; [|left; eexists; reflexivity].
    right; left. exists shape, dim. split; [discriminate|]. split; [reflexivity|].
    split; [exact Hs|]. reflexivity.
Qed.

(** X10. What a failing [build_index] leaves behind. An empty list of
    documents is refused with the builder untouched, whatever the world,
    and a failure of the embedding call leaves it untouched too. After any
    failure the documents, the metadata and the model name are as before,
    and so is the index, with one exception: when the answer of the
    service is an array that the index refuses (three dimensions or more),
    the new empty index has already replaced the one that was there. *)
Theorem build_index_failure w docs metadata self :
  build_index w [] metadata self = (Raise EmptyDocuments, self) /\
  (forall e, get_embeddings w docs = Raise e ->
     exists e', build_index w docs metadata self = (Raise e', self)) /\
  (forall e self', build_index w docs metadata self = (Raise e, self') ->
     self' = self \/
     exists shape dim,
       get_embeddings w docs = Ok (ArrayN shape) /\ shape1 (ArrayN shape) = Ok dim /\
       e = ValueError /\ self' = set_index (Some (Faiss.new dim)) self).
Proof.
  split; [reflexivity|]. split.
  - intros e He. unfold build_index. destruct docs as [|doc docs]; [eexists; reflexivity|].
    simpl truthy. simpl negb. cbv iota. unfold bind, lift. rewrite He. eexists; reflexivity.
  - intros e self' H.
    destruct (build_index_cases w docs metadata self)
      as [[e' He]|[(shape & dim & _ & Hg & Hs & Hbad)|(c & r & _ & _ & Hok)]];
      rewrite H in *.
    + left. congruence.
    + right. injection Hbad as -> ->. exists shape, dim. repeat split; assumption.
    + discriminate.
Qed.

(** A builder with one document whose index is replaced by an empty one. *)
Example build_index_failure_replaces_index :
  build_index Sample.nested_answer [lit "first"] None Sample.one_document
  = (Raise ValueError, set_index (Some (Faiss.new 1)) Sample.one_document).
Proof. reflexivity. Qed.

(** X11. [build_index] leaves an aligned builder when the embedding
    service gives one vector per text and the metadata are absent, empty
    or as many as the documents. *)
Theorem build_index_aligned w docs metadata self self' :
  one_vector_per_text w ->
  match metadata with
  | Some (m :: ms) => length (m :: ms) = length docs
  | _ => True
  end ->
  build_index w docs metadata self = (Ok tt, self') ->
  aligned self'.
Proof.
  intros Hw Hmd H.
  destruct (build_index_cases w docs metadata self)
    as [[e' He]|[(shape & dim & _ & _ & _ & Hbad)|(c & r & _ & Hg & Hok)]];
    rewrite H in *; [discriminate|discriminate|].
  injection Hok as ->. apply (get_embeddings_length w) in Hg; [|exact Hw].
  unfold aligned, vector_count, Faiss.ntotal. simpl.
  destruct metadata as [[|m ms]|]; rewrite ?length_map; simpl in *; lia.
Qed.

Lemma build_index_aligned_witness :
  aligned (mkBuilder [] (Some (Faiss.mkIndex 1 [[5%Q]; [6%Q]]))
                     [lit "first"; lit "second"] [∅; ∅]).
Proof.
  apply (build_index_aligned Sample.world [lit "first"; lit "second"] None (init [])).
  - intros texts embeddings H. simpl in H. injection H as <-. apply length_map.
  - exact I.
  - reflexivity.
Defined.

(** *** Search *)

(** X12. On a builder that [is_index_loaded] rejects (no index, or no
    document), [search] returns the empty list for every query and every
    [k], without asking the embedding service: it succeeds also when the
    service is down and when [k] is not positive. *)
Theorem search_not_loaded w self query k :
  is_index_loaded self = false -> search w self query k = Ok [].
Proof.
  unfold is_index_loaded, search. destruct (index self) as [ix|]; [|reflexivity].
  intros H. apply Z.ltb_ge in H.
  assert (len (documents self) = 0) as -> by (unfold len in *; lia). reflexivity.
Qed.

Lemma search_not_loaded_witness :
  search (mkWorld (fun _ => None) (fun _ => None) (fun _ => None) (fun _ => [])
                  (fun _ => None) (fun _ => []))
         (init []) (lit "q") (-3) = Ok [].
Proof. apply search_not_loaded. reflexivity. Defined.

(** X13. On a loaded builder [search] raises instead of returning: the
    failure of the embedding call reaches the caller, and with an embedding
    of the right width a [k] that is not positive is refused by the index,
    as is an embedding of another width. *)
Theorem search_raises w self query k ix :
  is_index_loaded self = true -> index self = Some ix ->
  (forall e, get_embeddings w [query] = Raise e -> search w self query k = Raise e) /\
  (forall rows, get_embeddings w [query] = Ok (Array2 (Faiss.d ix) rows) ->
     k <= 0 -> search w self query k = Raise AssertionError) /\
  (forall cols rows, get_embeddings w [query] = Ok (Array2 cols rows) ->
     cols <> Faiss.d ix -> search w self query k = Raise AssertionError).
Proof.
  intros Hl Hix. unfold is_index_loaded in Hl. rewrite Hix in Hl.
  apply Z.ltb_lt in Hl.
  assert (He : (len (documents self) =? 0) = false) by (apply Z.eqb_neq; lia).
  unfold search. rewrite Hix, He. repeat split.
  - intros e ->. reflexivity.
  - intros rows -> Hk. unfold mbind, result_bind. simpl. rewrite Nat.eqb_refl. simpl.
    replace (k <=? 0) with true by (symmetry; apply Z.leb_le; lia). reflexivity.
  - intros cols rows -> Hne. unfold mbind, result_bind. simpl.
    replace (Nat.eqb cols (Faiss.d ix)) with false
      by (symmetry; apply Nat.eqb_neq; exact Hne).
    reflexivity.
Qed.

Lemma search_raises_witness :
  search Sample.world Sample.one_document (lit "q") 0 = Raise AssertionError.
Proof.
  apply (proj1 (proj2 (search_raises Sample.world Sample.one_document (lit "q") 0
                         (Faiss.mkIndex 1 [[0%Q]]) eq_refl eq_refl)) [[1%Q]]).
  - reflexivity.
  - lia.
Defined.

Lemma py_getitem_lookup {A} (l : list A) i x :
  py_getitem l i = Ok x ->
  l !! Z.to_nat (if i <? 0 then len l + i else i) = Some x.
Proof.
  unfold py_getitem.
  destruct ((0 <=? (if i <? 0 then len l + i else i))
            && ((if i <? 0 then len l + i else i) <? len l)); [|discriminate].
  destruct (l !! Z.to_nat (if i <? 0 then len l + i else i)); [|discriminate].
  intros H. injection H as ->. reflexivity.
Qed.

Lemma collect_hits_store self row : forall results hits,
  length (documents self) = length (document_metadata self) ->
  Forall (fun h => exists i, documents self !! i = Some (document h) /\
                             document_metadata self !! i = Some (metadata h)) results ->
  collect_hits self row results = Ok hits ->
  Forall (fun h => exists i, documents self !! i = Some (document h) /\
                             document_metadata self !! i = Some (metadata h)) hits.
Proof.
  induction row as [|[distance idx] row IH]; intros results hits Hlen Hres H.
  - simpl in H. injection H as <-. exact Hres.
  - simpl in H. destruct (idx <? len (documents self)); [|eapply IH; eassumption].
    destruct (py_getitem (documents self) idx) as [doc|e] eqn:Hd; [|discriminate].
    destruct (py_getitem (document_metadata self) idx) as [meta|e] eqn:Hm; [|discriminate].
    unfold mbind, result_bind in H. eapply IH; [exact Hlen| |exact H].
    apply Forall_app. split; [exact Hres|]. constructor; [|constructor].
    apply py_getitem_lookup in Hd. apply py_getitem_lookup in Hm.
    unfold len in *. rewrite <- Hlen in Hm. eexists. split; [exact Hd|exact Hm].
Qed.

(** X14. The join of [search] is positional: when there are as many
    metadata entries as documents, every hit pairs a stored document with
    the metadata entry stored at the same position. *)
Theorem search_hits_from_store w self query k hits :
  length (documents self) = length (document_metadata self) ->
  search w self query k = Ok hits ->
  forall h, h ∈ hits ->
    exists i, documents self !! i = Some (document h) /\
              document_metadata self !! i = Some (metadata h).
Proof.
  intros Hlen H. apply Forall_forall. revert H. unfold search.
  destruct (index self) as [ix|]; [|intros H; injection H as <-; constructor].
  destruct (len (documents self) =? 0); [intros H; injection H as <-; constructor|].
  destruct (get_embeddings w [query]) as [emb|e]; [|discriminate].
  unfold mbind, result_bind.
  destruct (Faiss.search ix emb k) as [found|e]; [|discriminate].
  destruct (py_getitem found 0) as [row|e]; [|discriminate].
  apply collect_hits_store; [exact Hlen|constructor].
Qed.

Lemma search_hits_from_store_witness :
  exists i, documents Sample.one_document !! i = Some (lit "the only chunk") /\
            document_metadata Sample.one_document !! i
              = Some {[lit "file_path" := lit "a.txt"]}.
Proof.
  exact (search_hits_from_store Sample.world Sample.one_document (lit "q") 1
           [mkHit (lit "the only chunk") {[lit "file_path" := lit "a.txt"]} 1%Q]
           eq_refl eq_refl
           (mkHit (lit "the only chunk") {[lit "file_path" := lit "a.txt"]} 1%Q)
           (list_elem_of_here _ _)).
Defined.

(** *** Persistence *)





(** A save that fails after [os.makedirs] has made a directory leaves the
    directory behind. *)
Example save_index_leaves_directory :
  save_index (mkSaveWorld [lit "out"] true FailedUntouched Written [])
             (lit "out/idx") ∅ Sample.one_document
  = (false, {[lit "out" := Directory]}, Sample.one_document).
Proof. reflexivity. Qed.



(** X17. [load_index] reads only the documents and the metadata of the
    sidecar: the saved date and the model name stored there, even when
    missing or different from the builder's model, do not change its
    outcome, and the builder keeps its own model name. *)
Theorem load_index_ignores_tags fs file_path self data date model :
  fs !! json_path file_path = Some (JsonFile data) ->
  load_index
    (<[json_path file_path :=
         JsonFile (mkSidecar (j_documents data) (j_metadata data) date model)]> fs)
    file_path self
  = load_index fs file_path self /\
  embedding_model (snd (load_index fs file_path self)) = embedding_model self.
Proof.
  intros Hj. rewrite !load_index_cases.
  rewrite lookup_insert_ne by (apply not_eq_sym, index_json_paths_differ).
  rewrite lookup_insert_eq, Hj. simpl.
  destruct (fs !! index_path file_path) as [[ix|d| |]|]; try (split; reflexivity).
  destruct (j_documents data); [|split; reflexivity].
  destruct (j_metadata data); split; reflexivity.
Qed.

Lemma load_index_ignores_tags_witness :
  load_index
    (<[json_path (lit "idx") :=
         JsonFile (mkSidecar (Some [lit "the only chunk"]) (Some [∅])
                             (Some (lit "never")) (Some (lit "another-model")))]>
       Sample.mismatched_artifacts)
    (lit "idx") (init [])
  = load_index Sample.mismatched_artifacts (lit "idx") (init []).
Proof.
  apply (proj1 (load_index_ignores_tags Sample.mismatched_artifacts (lit "idx") (init [])
                  (mkSidecar (Some [lit "the only chunk"]) (Some [∅]) None None)
                  (Some (lit "never")) (Some (lit "another-model")) eq_refl)).
Defined.

(** *** Folder ingestion *)

Lemma startswith_app s t p : startswith s p = true -> startswith (s ++ t) p = true.
Proof.
  revert s. induction p as [|b p IH]; intros s H; [destruct (s ++ t); reflexivity|].
  destruct s as [|a s]; [discriminate|]. simpl in *.
  apply andb_true_iff in H as [Hab Hrest]. rewrite Hab. simpl. apply IH. exact Hrest.
Qed.

Lemma endswith_app pre s suffix :
  endswith s suffix = true -> endswith (pre ++ s) suffix = true.
Proof. unfold endswith. rewrite rev_app_distr. apply startswith_app. Qed.

Lemma os_path_join_suffix root file : exists pre, os_path_join root file = pre ++ file.
Proof.
  unfold os_path_join. destruct (startswith file (lit "/")); [exists []; reflexivity|].
  destruct (negb (truthy root) || endswith root (lit "/")).
  - exists root. reflexivity.
  - exists (root ++ lit "/"). rewrite <- app_assoc. reflexivity.
Qed.

(** Lower-casing depends on the context only in the choice between the
    two small sigmas. *)
Lemma lower_at_fold rb rb' c after :
  fold_sigma (lower_at rb c after) = fold_sigma (lower_at rb' c after).
Proof.
  unfold lower_at. destruct (c =? CAPITAL_SIGMA)%N; [|reflexivity].
  destruct (final_sigma rb after), (final_sigma rb' after); reflexivity.
Qed.

Lemma lower_from_fold s : forall rb rb',
  fold_sigma (lower_from rb s) = fold_sigma (lower_from rb' s).
Proof.
  induction s as [|c s IH]; intros rb rb'; [reflexivity|].
  simpl. unfold fold_sigma in *. rewrite !map_app. f_equal.
  - apply lower_at_fold.
  - apply IH.
Qed.

Lemma lower_from_app pre : forall rb s,
  exists x, lower_from rb (pre ++ s) = x ++ lower_from (rev pre ++ rb) s.
Proof.
  induction pre as [|c pre IH]; intros rb s; [exists []; reflexivity|].
  simpl. destruct (IH (c :: rb) s) as [x Hx].
  exists (lower_at rb c (pre ++ s) ++ x).
  rewrite Hx, <- !app_assoc. reflexivity.
Qed.

Lemma startswith_fold p : forall s,
  no_sigma p = true -> startswith (fold_sigma s) p = startswith s p.
Proof.
  induction p as [|b p IH]; intros s Hp; [destruct s; reflexivity|].
  destruct s as [|a s]; [reflexivity|].
  simpl in Hp. apply andb_true_iff in Hp as [Hb Hp].
  apply andb_true_iff in Hb as [Hb1 Hb2].
  apply negb_true_iff in Hb1, Hb2. apply N.eqb_neq in Hb1, Hb2.
  simpl. rewrite (IH s Hp). f_equal.
  destruct (a =? SMALL_FINAL_SIGMA)%N eqn:Ha; [|reflexivity].
  apply N.eqb_eq in Ha. subst a.
  transitivity false; [|symmetry]; apply N.eqb_neq; congruence.
Qed.

Lemma endswith_fold s ext :
  no_sigma (rev ext) = true -> endswith (fold_sigma s) ext = endswith s ext.
Proof.
  intros H. unfold endswith, fold_sigma. rewrite <- map_rev. apply startswith_fold. exact H.
Qed.

Lemma lower_endswith_join root file ext :
  no_sigma (rev ext) = true ->
  endswith (lower file) ext = true ->
  endswith (lower (os_path_join root file)) ext = true.
Proof.
  intros Hext H. destruct (os_path_join_suffix root file) as [pre ->].
  unfold lower in *. destruct (lower_from_app pre [] file) as [x ->].
  apply endswith_app.
  rewrite <- endswith_fold by exact Hext.
  rewrite (lower_from_fold file _ []).
  rewrite endswith_fold by exact Hext. exact H.
Qed.

(** A file that passes the default filter has a format the extractor
    knows, under whatever directory it lies. *)
Lemma default_match_supported w root file :
  extension_matches DEFAULT_FILE_EXTENSIONS file = true ->
  extract_text_from_file w (os_path_join root file) <> Raise UnsupportedFormat.
Proof.
  unfold extension_matches, DEFAULT_FILE_EXTENSIONS. cbn [existsb].
  rewrite orb_false_r. intros H. unfold extract_text_from_file.
  destruct (endswith (lower (os_path_join root file)) (lit ".pdf")) eqn:Hpdf.
  { unfold reading. destruct (pdf_text w _); discriminate. }
  destruct (endswith (lower (os_path_join root file)) (lit ".docx")) eqn:Hdocx.
  { unfold reading. destruct (docx_text w _); discriminate. }
  destruct (endswith (lower (os_path_join root file)) (lit ".txt")) eqn:Htxt.
  { unfold reading. destruct (txt_text w _); discriminate. }
  exfalso. apply orb_true_iff in H as [H|H]; [|apply orb_true_iff in H as [H|H]];
    apply (lower_endswith_join root) in H; try reflexivity; congruence.
Qed.

Lemma add_document_unsupported w path md self self' :
  add_document w path md self = (Raise UnsupportedFormat, self') ->
  extract_text_from_file w path = Raise UnsupportedFormat.
Proof.
  intros H.
  destruct (extract_text_from_file w path) as [text|e] eqn:Ht.
  - exfalso. revert H. unfold add_document, bind, lift, get, ret, modify. rewrite Ht.
    destruct (get_embeddings w (split_text (nlp w) text DEFAULT_CHUNK_SIZE))
      as [emb|e] eqn:Hg.
    + destruct (index self) as [ix|] eqn:Hix.
      * unfold index_add. rewrite Hix.
        destruct emb as [|cols rows|shape]; simpl; try discriminate.
        destruct (Nat.eqb cols (Faiss.d ix)); discriminate.
      * destruct emb as [|cols rows|shape]; simpl; try discriminate.
        -- unfold index_add. simpl. rewrite Nat.eqb_refl. discriminate.
        -- destruct shape as [|n [|dim shape]]; simpl; discriminate.
    + apply get_embeddings_raise in Hg as ->. discriminate.
  - revert H. unfold add_document, bind, lift. rewrite Ht.
    intros H. injection H as -> _. reflexivity.
Qed.

(** What the records of the report can be, whether or not the messages
    can be printed: a property that holds of every success record, of the
    error record that a failing [print] gives, and of the error record of
    every failure of [add_document] on a file that passes the filter,
    holds of every record. *)
Section FolderRecords.

Variable fw : FolderWorld.
Variable exts : list str.
Variable Q : FileReport -> Prop.
Hypothesis success_Q : forall result, Q (Success result).
Hypothesis stdout_Q : forall p, Q (Error p StdoutError).
Hypothesis failure_Q :
  forall root file self e self',
    extension_matches exts file = true ->
    add_document (world_at fw (os_path_join root file)) (os_path_join root file) None self
      = (Raise e, self') ->
    Q (Error (os_path_join root file) e).

Lemma ingest_file_records root file results self results' self' :
  extension_matches exts file = true -> Forall Q results ->
  ingest_file fw root file results self = (Ok results', self') -> Forall Q results'.
Proof.
  intros Hm Hres. unfold ingest_file, try_add_document.
  destruct (add_document (world_at fw (os_path_join root file)) (os_path_join root file)
              None self) as [[r|e] s1] eqn:Hadd.
  - unfold print.
    destruct (stdout fw (os_path_join root file) (Added file)).
    + intros H. injection H as <- _. apply Forall_app. split; [exact Hres|].
      constructor; [apply success_Q|constructor].
    + destruct (stdout fw (os_path_join root file) (Failed file StdoutError));
        [|discriminate].
      intros H. injection H as <- _. apply Forall_app. split.
      * apply Forall_app. split; [exact Hres|]. constructor; [apply success_Q|constructor].
      * constructor; [apply stdout_Q|constructor].
  - unfold print. destruct (stdout fw (os_path_join root file) (Failed file e));
      [|discriminate].
    intros H. injection H as <- _. apply Forall_app. split; [exact Hres|].
    constructor; [|constructor]. eapply failure_Q; [exact Hm|exact Hadd].
Qed.

Lemma ingest_files_records root files : forall results self results' self',
  Forall Q results ->
  ingest_files fw exts root files results self = (Ok results', self') -> Forall Q results'.
Proof.
  induction files as [|file rest IH]; intros results self results' self' Hres.
  - intros H. injection H as <- _. exact Hres.
  - simpl. destruct (extension_matches exts file) eqn:Hm; [|apply IH; exact Hres].
    unfold bind.
    destruct (ingest_file fw root file results self) as [[rs|e] s1] eqn:Hfile;
      [|discriminate].
    apply IH. eapply ingest_file_records; eassumption.
Qed.

Lemma ingest_walk_records dirs : forall results self results' self',
  Forall Q results ->
  ingest_walk fw exts dirs results self = (Ok results', self') -> Forall Q results'.
Proof.
  induction dirs as [|[root files] rest IH]; intros results self results' self' Hres.
  - intros H. injection H as <- _. exact Hres.
  - simpl. unfold bind.
    destruct (ingest_files fw exts root files results self) as [[rs|e] s1] eqn:Hfiles;
      [|discriminate].
    apply IH. eapply ingest_files_records; eassumption.
Qed.

End FolderRecords.

(** X18. With the default extensions no record of the folder report is an
    unsupported-format error: every file that passes the filter has a
    format that [extract_text_from_file] dispatches on, whatever the case
    of its name and the directory it lies in. *)
Theorem default_extensions_supported fw folder_path self results self' r p :
  add_documents_from_folder fw folder_path None self = (Ok results, self') ->
  r ∈ results -> r <> Error p UnsupportedFormat.
Proof.
  unfold add_documents_from_folder. simpl default. intros H Hr.
  assert (Hall : Forall (fun r => forall p, r <> Error p UnsupportedFormat) results).
  { eapply (ingest_walk_records fw DEFAULT_FILE_EXTENSIONS
              (fun r => forall p, r <> Error p UnsupportedFormat));
      [| | |constructor|exact H].
    - discriminate.
    - discriminate.
    - intros root file s e s' Hm Hadd q E. injection E as _ ->.
      apply add_document_unsupported in Hadd.
      exact (default_match_supported _ _ _ Hm Hadd). }
  rewrite Forall_forall in Hall. apply Hall. exact Hr.
Qed.

Lemma default_extensions_supported_witness :
  Error (lit "top/c.pdf") ExtractionError <> Error (lit "top/c.pdf") UnsupportedFormat.
Proof.
  apply (default_extensions_supported Sample.folder_world (lit "top") (init [])
           [Success (mkAddResult (lit "top/a.txt") 1 1);
            Error (lit "top/c.pdf") ExtractionError;
            Success (mkAddResult (lit "top/sub/d.TXT") 1 2)]
           (snd (add_documents_from_folder Sample.folder_world (lit "top") None (init [])))).
  - vm_compute. reflexivity.
  - right. left.
Defined.

Lemma ingest_files_no_extension fw root files : forall results self,
  ingest_files fw [] root files results self = (Ok results, self).
Proof.
  induction files as [|file rest IH]; intros results self; [reflexivity|].
  simpl. apply IH.
Qed.

Lemma ingest_walk_no_extension fw dirs : forall results self,
  ingest_walk fw [] dirs results self = (Ok results, self).
Proof.
  induction dirs as [|[root files] rest IH]; intros results self; [reflexivity|].
  simpl. unfold bind. rewrite ingest_files_no_extension. apply IH.
Qed.

(** X19. When there is nothing to ingest, because the folder is not there
    or the list of extensions is empty, [add_documents_from_folder]
    returns the empty report and leaves the builder as it was. *)
Theorem folder_nothing_to_ingest fw folder_path file_extensions self :
  listing fw folder_path = None \/ file_extensions = Some [] ->
  add_documents_from_folder fw folder_path file_extensions self = (Ok [], self).
Proof.
  intros H. unfold add_documents_from_folder.
  destruct H as [H| ->].
  - unfold os_walk. rewrite H. reflexivity.
  - simpl default. apply ingest_walk_no_extension.
Qed.

Lemma folder_nothing_to_ingest_witness :
  add_documents_from_folder Sample.folder_world (lit "top") (Some []) Sample.one_document
    = (Ok [], Sample.one_document).
Proof.
  apply (folder_nothing_to_ingest Sample.folder_world (lit "top") (Some [])
           Sample.one_document).
  right. reflexivity.
Defined.

End RagMore.

(** ** Properties of citation validation *)

Module ValidatorFacts.

Import Np Rag Validator RagFacts.

Lemma validate_loop_not_loaded w self citations : forall done,
  is_index_loaded self = false ->
  validate_loop w self citations done
  = (Ok (done ++ map mark_not_found citations), done ++ map mark_not_found citations).
Proof.
  induction citations as [|c rest IH]; intros done Hl; simpl.
  - rewrite app_nil_r. reflexivity.
  - assert (Hs : search w self (query_of c) 3 = Ok []).
    { unfold is_index_loaded in Hl. unfold search.
      destruct (index self); [|reflexivity].
      apply Z.ltb_ge in Hl.
      assert (len (documents self) = 0) as -> by (unfold len in *; lia). reflexivity. }
    rewrite Hs. simpl. rewrite IH by exact Hl. rewrite <- !app_assoc. reflexivity.
Qed.

(** X20. Against a builder that is not loaded, [validate_with_rag] marks
    every citation as not validated, in order, with no call to the
    embedding service (so in every world), and returns the caller's
    updated list; result entries written by an earlier validation stay. *)
Theorem validate_with_rag_not_loaded w self citations :
  is_index_loaded self = false ->
  validate_with_rag w self citations
  = (Ok (map mark_not_found citations), map mark_not_found citations).
Proof. intros Hl. unfold validate_with_rag. apply validate_loop_not_loaded. exact Hl. Qed.

Lemma validate_with_rag_not_loaded_witness :
  validate_with_rag Sample.world (init [])
    [mkCitation Missing (Text (lit "Law")) Missing ∅ None None None None]
  = (Ok [mkCitation Missing (Text (lit "Law")) Missing ∅
                    (Some false) (Some RESULT_NOT_FOUND) None None],
     [mkCitation Missing (Text (lit "Law")) Missing ∅
                 (Some false) (Some RESULT_NOT_FOUND) None None]).
Proof.
  apply (validate_with_rag_not_loaded Sample.world (init [])
           [mkCitation Missing (Text (lit "Law")) Missing ∅ None None None None]).
  reflexivity.
Defined.

Lemma validate_loop_accepts w self ix citations : forall done,
  aligned self -> index self = Some ix -> documents self <> [] ->
  (forall query, exists v vs,
     get_embeddings w [query] = Ok (Array2 (Faiss.d ix) (v :: vs))) ->
  Forall accepted done ->
  exists out,
    validate_loop w self citations done = (Ok out, out) /\
    length out = (length done + length citations)%nat /\
    Forall accepted out.
Proof.
  induction citations as [|c rest IH]; intros done Hal Hix Hne Hemb Hdone; simpl.
  - exists done. repeat split; [lia|exact Hdone].
  - destruct (Hemb (query_of c)) as (v & vs & Hq).
    destruct (search_returns_k_hits w self (query_of c) 3 ix v vs Hal Hix Hne Hq)
      as (hits & Hs & Hlen); [lia|].
    rewrite Hs.
    assert (Hl3 : length hits = 3%nat) by (unfold len in Hlen; lia).
    destruct hits as [|h hits]; [discriminate|]. simpl truthy. cbv iota.
    destruct (IH (done ++ [mark_found (h :: hits) c]) Hal Hix Hne Hemb)
      as (out & Ho & Hlo & Hacc).
    { apply Forall_app. split; [exact Hdone|]. constructor; [|constructor].
      repeat split. exists (h :: hits). repeat split. exact Hl3. }
    exists out. split; [exact Ho|]. split; [|exact Hacc].
    rewrite Hlo, length_app. simpl. lia.
Qed.

(** X21. Against an aligned builder that holds documents, validation
    rejects nothing: when the embedding of every query succeeds with the
    width of the index, [validate_with_rag] marks every citation as
    validated, with exactly three results each, whatever the citation
    says. *)
Theorem validate_with_rag_accepts_all w self ix citations :
  aligned self -> index self = Some ix -> documents self <> [] ->
  (forall query, exists v vs,
     get_embeddings w [query] = Ok (Array2 (Faiss.d ix) (v :: vs))) ->
  exists out,
    validate_with_rag w self citations = (Ok out, out) /\
    length out = length citations /\
    Forall accepted out.
Proof.
  intros Hal Hix Hne Hemb.
  destruct (validate_loop_accepts w self ix citations [] Hal Hix Hne Hemb)
    as (out & Ho & Hl & Hacc); [constructor|].
  exists out. split; [exact Ho|]. split; [exact Hl|exact Hacc].
Qed.

Lemma sample_world_embeds query :
  exists v vs, get_embeddings Sample.world [query] = Ok (Array2 1 (v :: vs)).
Proof. exists [inject_Z (len query)], []. reflexivity. Qed.

Lemma validate_with_rag_accepts_all_witness :
  exists out,
    validate_with_rag Sample.world Sample.one_document
      [mkCitation Missing (Text (lit "No such law")) Missing ∅ None None None None]
    = (Ok out, out) /\
    length out = 1%nat /\ Forall accepted out.
Proof.
  apply (validate_with_rag_accepts_all Sample.world Sample.one_document
           (Faiss.mkIndex 1 [[0%Q]])).
  - split; reflexivity.
  - reflexivity.
  - discriminate.
  - exact sample_world_embeds.
Defined.

Lemma mark_source_fields results c :
  source_fields (mark_found results c) = source_fields c /\
  source_fields (mark_not_found c) = source_fields c.
Proof. split; reflexivity. Qed.

Lemma validate_loop_keeps w self citations : forall done outcome after,
  validate_loop w self citations done = (outcome, after) ->
  map source_fields after = map source_fields (done ++ citations) /\
  (forall out, outcome = Ok out -> out = after) /\
  (forall e, outcome = Raise e ->
     exists c, c ∈ citations /\ search w self (query_of c) 3 = Raise e).
Proof.
  induction citations as [|c rest IH]; intros done outcome after H; simpl in H.
  - injection H as <- <-. rewrite app_nil_r.
    split; [reflexivity|]. split; [intros out E; congruence|discriminate].
  - destruct (search w self (query_of c) 3) as [results|e] eqn:Hs.
    + apply IH in H as (Hm & Hok & Hraise).
      split; [|split; [exact Hok|]].
      * rewrite Hm, <- app_assoc, !map_app. simpl. f_equal. f_equal.
        destruct (truthy results); reflexivity.
      * intros e He. destruct (Hraise e He) as (c' & Hin & Hc').
        exists c'. split; [right; exact Hin|exact Hc'].
    + injection H as <- <-. split; [reflexivity|].
      split; [discriminate|]. intros e' He'. injection He' as <-.
      exists c. split; [left|exact Hs].
Qed.

(** X22. [validate_with_rag] never drops, adds or reorders a citation and
    never changes what it read from one: whatever the outcome, the
    caller's list afterwards has the same type, title, content and other
    entries at every position. When it returns, it returns that list; when
    it raises, the exception is the one [search] raised for one of the
    citations. *)
Theorem validate_with_rag_keeps_citations w self citations outcome after :
  validate_with_rag w self citations = (outcome, after) ->
  map source_fields after = map source_fields citations /\
  (forall out, outcome = Ok out -> out = after) /\
  (forall e, outcome = Raise e ->
     exists c, c ∈ citations /\ search w self (query_of c) 3 = Raise e).
Proof. apply validate_loop_keeps. Qed.

Lemma validate_with_rag_keeps_citations_witness :
  map source_fields
      (snd (validate_with_rag Sample.world Sample.one_document
              [mkCitation Missing (Text (lit "Law")) Null ∅ None None None None]))
  = [(Missing, Text (lit "Law"), Null, ∅)].
Proof.
  apply (validate_with_rag_keeps_citations Sample.world Sample.one_document
           [mkCitation Missing (Text (lit "Law")) Null ∅ None None None None]
           (fst (validate_with_rag Sample.world Sample.one_document
                   [mkCitation Missing (Text (lit "Law")) Null ∅ None None None None]))).
  reflexivity.
Defined.

End ValidatorFacts.

(** ** Properties of the configuration manager *)

Module ConfigFacts.

Import Rag Config.

Lemma fill_default_dict (d : gmap str json) key :
  fill_default (Return (JDict d)) key
  = Return (JDict (d ∪ {[key := default JNull (default_config !! key)]})).
Proof.
  unfold fill_default, and_then, contains, setitem.
  destruct (d !! key) as [v|] eqn:E.
  - rewrite bool_decide_eq_true_2 by eauto.
    assert (Hd : d ∪ {[key := default JNull (default_config !! key)]} = d).
    { apply map_eq. intros k. rewrite lookup_union.
      destruct (decide (k = key)) as [->|Hne].
      - rewrite E, lookup_singleton_eq. reflexivity.
      - rewrite lookup_singleton_ne by congruence. destruct (d !! k); reflexivity. }
    rewrite Hd. reflexivity.
  - rewrite bool_decide_eq_false_2 by (intros [x Hx]; congruence).
    assert (Hd : d ∪ {[key := default JNull (default_config !! key)]}
                 = <[key := default JNull (default_config !! key)]> d).
    { apply map_eq. intros k. rewrite lookup_union.
      destruct (decide (k = key)) as [->|Hne].
      - rewrite lookup_insert_eq, E, lookup_singleton_eq. reflexivity.
      - rewrite lookup_insert_ne, lookup_singleton_ne by congruence.
        destruct (d !! k); reflexivity. }
    rewrite Hd. reflexivity.
Qed.

Lemma default_config_union :
  ({[lit "api_key" := default JNull (default_config !! lit "api_key")]} : gmap str json)
  ∪ ({[lit "last_index_path" := default JNull (default_config !! lit "last_index_path")]}
  ∪ ({[lit "use_proxy" := default JNull (default_config !! lit "use_proxy")]}
  ∪ ({[lit "proxy_url" := default JNull (default_config !! lit "proxy_url")]}
  ∪ ({[lit "recent_files" := default JNull (default_config !! lit "recent_files")]}
  ∪ {[lit "index_status" := default JNull (default_config !! lit "index_status")]}))))
  = default_config.
Proof. vm_compute. reflexivity. Qed.

(** A JSON object is completed with the defaults it lacks. *)
Lemma load_config_dict (fs : ConfigFiles) (path : str) (d : gmap str json) :
  fs !! path = Some (Holds (JDict d)) ->
  load_config fs path = JDict (d ∪ default_config).
Proof.
  intros H. unfold load_config. rewrite H. unfold DEFAULT_KEYS.
  cbn [fold_left]. rewrite !fill_default_dict.
  rewrite <- !(assoc_L (∪)). rewrite default_config_union. reflexivity.
Qed.

Lemma fold_fill_default_throw keys e :
  fold_left fill_default keys (Throw e) = Throw e.
Proof. induction keys as [|k keys IH]; [reflexivity|exact IH]. Qed.

(** A value that is not an object is returned as it is or refused. *)
Lemma fold_fill_default_other keys j :
  (forall d, j <> JDict d) ->
  fold_left fill_default keys (Return j) = Return j \/
  exists e, fold_left fill_default keys (Return j) = Throw e.
Proof.
  intros Hj. induction keys as [|k keys IH]; [left; reflexivity|].
  cbn [fold_left].
  assert (Hstep : fill_default (Return j) k = Return j \/
                  exists e, fill_default (Return j) k = Throw e).
  { unfold fill_default. simpl.
    destruct j as [| | | s|l|d]; simpl; try (right; eexists; reflexivity).
    - destruct (substring k s); [left; reflexivity|right; eexists; reflexivity].
    - destruct (existsb (is_str k) l); [left; reflexivity|right; eexists; reflexivity].
    - exfalso. apply (Hj d). reflexivity. }
  destruct Hstep as [->|[e ->]]; [exact IH|].
  right. exists e. apply fold_fill_default_throw.
Qed.



(** X24. What [load_config] returns is stable: written to the
    configuration file and loaded again, it comes back as it is, whatever
    the file held in the first place. *)
Theorem load_config_stable (fs : ConfigFiles) (path : str) :
  load_config (<[path := Holds (load_config fs path)]> fs) path = load_config fs path.
Proof.
  assert (Hdef : forall fs', fs' !! path = Some (Holds (JDict default_config)) ->
                             load_config fs' path = JDict default_config).
  { intros fs' H. rewrite (load_config_dict fs' path default_config H).
    rewrite (idemp_L (∪) default_config). reflexivity. }
  assert (Hins : forall j, <[path := Holds j]> fs !! path = Some (Holds j))
    by (intros j; apply lookup_insert_eq).
  destruct (fs !! path) as [[j|]|] eqn:E.
  - destruct j as [| b| z| s| l| d].
    + replace (load_config fs path) with (JDict default_config)
        by (unfold load_config; rewrite E; reflexivity).
      apply Hdef, Hins.
    + replace (load_config fs path) with (JDict default_config)
        by (unfold load_config; rewrite E; reflexivity).
      apply Hdef, Hins.
    + replace (load_config fs path) with (JDict default_config)
        by (unfold load_config; rewrite E; reflexivity).
      apply Hdef, Hins.
    + destruct (fold_fill_default_other DEFAULT_KEYS (JStr s)) as [H|[e H]];
        [discriminate| |].
      * replace (load_config fs path) with (JStr s)
          by (unfold load_config; rewrite E, H; reflexivity).
        unfold load_config at 1. rewrite Hins, H. reflexivity.
      * replace (load_config fs path) with (JDict default_config)
          by (unfold load_config; rewrite E, H; reflexivity).
        apply Hdef, Hins.
    + destruct (fold_fill_default_other DEFAULT_KEYS (JList l)) as [H|[e H]];
        [discriminate| |].
      * replace (load_config fs path) with (JList l)
          by (unfold load_config; rewrite E, H; reflexivity).
        unfold load_config at 1. rewrite Hins, H. reflexivity.
      * replace (load_config fs path) with (JDict default_config)
          by (unfold load_config; rewrite E, H; reflexivity).
        apply Hdef, Hins.
    + rewrite (load_config_dict fs path d E).
      rewrite (load_config_dict _ path (d ∪ default_config) (Hins _)).
      rewrite <- (assoc_L (∪)), (idemp_L (∪) default_config). reflexivity.
  - replace (load_config fs path) with (JDict default_config)
      by (unfold load_config; rewrite E; reflexivity).
    apply Hdef, Hins.
  - replace (load_config fs path) with (JDict default_config)
      by (unfold load_config; rewrite E; reflexivity).
    apply Hdef, Hins.
Qed.

(** *** Recent files *)











End ConfigFacts.
